(** * CodotakuDirectX12: the frame loop, its fence handshake and its setup path

    A shallow embedding of [src/CodotakuDirectX12/CodotakuDirectX12.cpp].
    The Direct3D 12 device, the swap chain and the Win32 message queue are
    external to the program; they are represented by a small mock (a FIFO
    GPU queue, a fence, a surface index) whose answers are supplied by an
    environment record, so that every status code and every GPU schedule
    the program can meet is covered by a universally quantified variable. *)

From Stdlib Require Import String Ascii.
From Stdlib Require Import List ZArith NArith Bool Lia FinFun.
Import ListNotations.
Open Scope N_scope.

(** ** Machine integers *)

Definition UINT64_MOD : N := 2 ^ 64.
Definition UINT_MOD : Z := (2 ^ 32)%Z.

(** [m_fenceValue++] on a [UINT64]. *)
Definition uint64_incr (v : N) : N := (v + 1) mod UINT64_MOD.

(** An [HRESULT] is a signed 32-bit integer. *)
Definition HRESULT := Z.
Definition S_OK : HRESULT := 0%Z.
Definition E_FAIL : HRESULT := (-2147467259)%Z.          (* 0x80004005 *)
Definition DXGI_ERROR_DEVICE_REMOVED : HRESULT := (-2005270523)%Z. (* 0x887A0005 *)

(** The [FAILED] macro: the sign bit is set. *)
Definition FAILED (hr : HRESULT) : bool := (hr <? 0)%Z.
Definition SUCCEEDED (hr : HRESULT) : bool := (0 <=? hr)%Z.

(** [static_cast<UINT>(hr)]. *)
Definition to_UINT (hr : HRESULT) : Z := (hr mod UINT_MOD)%Z.

(** ** [HrToString] and [HrException] *)

Definition hex_digit (d : Z) : ascii :=
  match d with
  | 0%Z => "0" | 1%Z => "1" | 2%Z => "2" | 3%Z => "3"
  | 4%Z => "4" | 5%Z => "5" | 6%Z => "6" | 7%Z => "7"
  | 8%Z => "8" | 9%Z => "9" | 10%Z => "A" | 11%Z => "B"
  | 12%Z => "C" | 13%Z => "D" | 14%Z => "E" | _ => "F"
  end%char.

(** The format specifier [{:08X}] applied to a value below [2^32]:
    eight upper-case hexadecimal digits, most significant first. *)
Fixpoint hex_fixed (width : nat) (u : Z) : string :=
  match width with
  | O => EmptyString
  | S w => String (hex_digit ((u / 16 ^ Z.of_nat w) mod 16)%Z) (hex_fixed w u)
  end.

Definition HrToString (hr : HRESULT) : string :=
  ("HRESULT of 0x" ++ hex_fixed 8 (to_UINT hr))%string.

Inductive Exception : Type :=
| HrException (m_hr : HRESULT) (what : string)
| system_error (code : N).

Definition mkHrException (hr : HRESULT) : Exception :=
  HrException hr (HrToString hr).

Definition Error (e : Exception) : option HRESULT :=
  match e with
  | HrException hr _ => Some hr
  | system_error _ => None
  end.

Definition what_of (e : Exception) : option string :=
  match e with
  | HrException _ w => Some w
  | system_error _ => None
  end.

(** Reading the digits back, used to state that the message determines the
    status code. *)
Definition hex_value (c : ascii) : Z :=
  let n := Z.of_N (N_of_ascii c) in
  if (n <? 65)%Z then (n - 48)%Z else (n - 55)%Z.

Fixpoint hex_read (acc : Z) (s : string) : Z :=
  match s with
  | EmptyString => acc
  | String c r => hex_read (16 * acc + hex_value c)%Z r
  end.

Fixpoint string_drop (n : nat) (s : string) : string :=
  match n, s with
  | O, _ => s
  | S k, String _ r => string_drop k r
  | S _, EmptyString => EmptyString
  end.

(** The unsigned 32-bit value back to the signed status code. *)
Definition of_UINT (u : Z) : HRESULT :=
  if (u <? 2 ^ 31)%Z then u else (u - UINT_MOD)%Z.

Definition code_in_message (msg : string) : HRESULT :=
  of_UINT (hex_read 0%Z (string_drop 13 msg)).

Definition is_HRESULT (hr : Z) : Prop := (- 2 ^ 31 <= hr < 2 ^ 31)%Z.

(** ** The device seen by the program *)

Definition FrameCount : N := 2.

Inductive D3D12_RESOURCE_STATES : Type :=
| D3D12_RESOURCE_STATE_PRESENT
| D3D12_RESOURCE_STATE_RENDER_TARGET.

(** What the command list records.  A presentation buffer
    [m_renderTargets[i]] and its render-target view (heap start plus
    [i] descriptors) are both named by the ring index [i]. *)
Inductive Command : Type :=
| CmdTransition (buffer : N) (before after : D3D12_RESOURCE_STATES)
| CmdClear (rtv : N).

Definition command_buffer (c : Command) : N :=
  match c with
  | CmdTransition b _ _ => b
  | CmdClear b => b
  end.

(** Work items of the command queue, executed by the GPU in FIFO order. *)
Inductive GpuOp : Type :=
| GpuExecute (cmds : list Command)
| GpuPresent
| GpuSignal (v : N).

(** A submitted frame: the commands handed to the queue and the fence value
    assigned to them by the following [Signal] (none yet between
    [ExecuteCommandLists] and [Signal]). *)
Record Submission : Type := mkSubmission {
  sub_cmds : list Command;
  sub_fence : option N
}.

Record Device : Type := mkDevice {
  list_open : bool;               (* the command list is in the recording state *)
  list_cmds : list Command;       (* what it has recorded since its last Reset *)
  gpu_queue : list GpuOp;         (* enqueued, not yet executed by the GPU *)
  completed : N;                  (* ID3D12Fence::GetCompletedValue *)
  surface_index : N;              (* IDXGISwapChain3::GetCurrentBackBufferIndex *)
  submissions : list Submission;  (* every frame submitted so far, oldest first *)
  buffers : list (Z * Z)          (* width and height of each presentation buffer *)
}.

Record App : Type := mkApp {
  m_frameIndex : N;
  m_fenceValue : N
}.

Record World : Type := mkWorld {
  app : App;
  dev : Device;
  quit_posted : bool              (* PostQuitMessage has been called *)
}.

Definition with_dev (d : Device) (w : World) : World :=
  mkWorld (app w) d (quit_posted w).
Definition with_app (a : App) (w : World) : World :=
  mkWorld a (dev w) (quit_posted w).
Definition with_quit (w : World) : World :=
  mkWorld (app w) (dev w) true.

Definition set_list (o : bool) (cs : list Command) (d : Device) : Device :=
  mkDevice o cs (gpu_queue d) (completed d) (surface_index d) (submissions d) (buffers d).
Definition set_queue (q : list GpuOp) (d : Device) : Device :=
  mkDevice (list_open d) (list_cmds d) q (completed d) (surface_index d) (submissions d) (buffers d).
Definition set_completed (v : N) (d : Device) : Device :=
  mkDevice (list_open d) (list_cmds d) (gpu_queue d) v (surface_index d) (submissions d) (buffers d).
Definition set_surface_index (i : N) (d : Device) : Device :=
  mkDevice (list_open d) (list_cmds d) (gpu_queue d) (completed d) i (submissions d) (buffers d).
Definition set_submissions (s : list Submission) (d : Device) : Device :=
  mkDevice (list_open d) (list_cmds d) (gpu_queue d) (completed d) (surface_index d) s (buffers d).

(** *** The GPU side: asynchronous, strictly FIFO *)

Definition gpu_step (d : Device) : Device :=
  match gpu_queue d with
  | [] => d
  | GpuSignal v :: q => set_completed v (set_queue q d)
  | _ :: q => set_queue q d
  end.

(** The GPU retires [n] more work items (fewer when the queue runs dry). *)
Fixpoint gpu_run (n : nat) (d : Device) : Device :=
  match n with
  | O => d
  | S k => gpu_run k (gpu_step d)
  end.

(** [WaitForSingleObject(m_fenceEvent, INFINITE)] after
    [SetEventOnCompletion(v, m_fenceEvent)]: the thread sleeps while the GPU
    retires work, and wakes as soon as the fence has reached [v].  With an
    empty queue and the value unreached the event never fires ([None]). *)
Fixpoint gpu_wait_loop (fuel : nat) (v : N) (d : Device) : option Device :=
  if v <=? completed d then Some d
  else match fuel with
       | O => None
       | S k => gpu_wait_loop k v (gpu_step d)
       end.

Definition gpu_wait (v : N) (d : Device) : option Device :=
  gpu_wait_loop (length (gpu_queue d)) v d.

(** *** The CPU side: the effect of each API call on the mock.
    A call that reports a failing status leaves the device as it was. *)

Definition dev_list_reset (hr : HRESULT) (d : Device) : Device :=
  if FAILED hr then d else set_list true [] d.

Definition dev_record (c : Command) (d : Device) : Device :=
  if list_open d then set_list true (list_cmds d ++ [c]) d else d.

(** [Close] ends recording whatever status it reports: the status carries the
    errors met while recording, and a closed list stays closed. *)
Definition dev_list_close (d : Device) : Device :=
  set_list false (list_cmds d) d.

Definition dev_execute (d : Device) : Device :=
  set_submissions (submissions d ++ [mkSubmission (list_cmds d) None])
    (set_queue (gpu_queue d ++ [GpuExecute (list_cmds d)]) d).

(** [Present]: the surface moves to the buffer it chooses ([next]). *)
Definition dev_present (hr : HRESULT) (next : N) (d : Device) : Device :=
  if FAILED hr then d
  else set_surface_index next (set_queue (gpu_queue d ++ [GpuPresent]) d).

Definition assign_fence (v : N) (s : Submission) : Submission :=
  match sub_fence s with
  | None => mkSubmission (sub_cmds s) (Some v)
  | Some _ => s
  end.

Definition dev_signal (hr : HRESULT) (v : N) (d : Device) : Device :=
  if FAILED hr then d
  else set_submissions (map (assign_fence v) (submissions d))
         (set_queue (gpu_queue d ++ [GpuSignal v]) d).

(** ** API calls, in the order the program makes them *)

Inductive Handle : Type :=
| h_fence | h_commandList | h_commandAllocator | h_renderTarget (i : N)
| h_rtvHeap | h_swapChain | h_commandQueue | h_device | h_factory.

Inductive Call : Type :=
(* window and setup *)
| CRegisterClassExW | CAdjustWindowRect | CCreateWindowExW
| CCreateDXGIFactory2 | CD3D12CreateDevice | CCreateCommandQueue
| CCreateSwapChainForHwnd (width height : Z) (count : N)
| CMakeWindowAssociation | CSwapChainAs
| CCreateDescriptorHeap | CGetDescriptorHandleIncrementSize
| CGetBuffer (i : N) | CCreateRenderTargetView (i : N)
| CCreateCommandAllocator | CCreateCommandList | CCreateFence (initial : N)
| CCreateEventW | CShowWindow
(* per frame *)
| CAllocatorReset | CListReset
| CResourceBarrier (buffer : N) (before after : D3D12_RESOURCE_STATES)
| CClearRenderTargetView (rtv : N)
| CListClose | CExecuteCommandLists | CPresent
| CSignal (v : N) | CGetCompletedValue
| CSetEventOnCompletion (v : N) | CWaitForSingleObject
| CGetCurrentBackBufferIndex
(* message handling and teardown *)
| CPostQuitMessage | CSetWindowLongPtr | CDefWindowProcW (uMsg : Z)
| CRelease (h : Handle) | CDestroyWindow.

(** One entry of the event log: the call, the world it was made in and the
    world right after it. *)
Record Step : Type := mkStep {
  step_call : Call;
  step_before : World;
  step_after : World
}.

(** ** A state, exception and log monad for the C++ control flow *)

Inductive Outcome (A : Type) : Type :=
| Returned (a : A)
| Threw (e : Exception)
| Hung
| Faulted.
Arguments Returned {A} a.
Arguments Threw {A} e.
Arguments Hung {A}.
Arguments Faulted {A}.

Definition M (A : Type) : Type := World -> Outcome A * World * list Step.

Definition ret {A} (a : A) : M A := fun w => (Returned a, w, []).

Definition bind {A B} (c : M A) (k : A -> M B) : M B := fun w =>
  match c w with
  | (Returned a, w1, t1) =>
      match k a w1 with
      | (o, w2, t2) => (o, w2, t1 ++ t2)
      end
  | (Threw e, w1, t1) => (Threw e, w1, t1)
  | (Hung, w1, t1) => (Hung, w1, t1)
  | (Faulted, w1, t1) => (Faulted, w1, t1)
  end.

Declare Scope frame_scope.
Delimit Scope frame_scope with frame.
Notation "x <- c ;; k" := (bind c (fun x => k))
  (at level 61, c at next level, right associativity) : frame_scope.
Notation "c ;; k" := (bind c (fun _ => k))
  (at level 61, right associativity) : frame_scope.
Open Scope frame_scope.

Definition throw {A} (e : Exception) : M A := fun w => (Threw e, w, []).

(** A read through a pointer that cannot be read: an access violation, no
    C++ exception.  The system ends the process where it stands. *)
Definition fault {A} : M A := fun w => (Faulted, w, []).

Definition ThrowIfFailed (hr : HRESULT) : M unit :=
  if FAILED hr then throw (mkHrException hr) else ret tt.

(** A device call: apply its effect, log it. *)
Definition call (c : Call) (f : Device -> Device) : M unit := fun w =>
  let w' := with_dev (f (dev w)) w in
  (Returned tt, w', [mkStep c w w']).

(** A device call that only reads. *)
Definition query {A} (c : Call) (f : Device -> A) : M A := fun w =>
  (Returned (f (dev w)), w, [mkStep c w w]).

(** The GPU runs on its own between CPU calls; this is no call of the
    program and leaves no log entry. *)
Definition gpu_progress (n : nat) : M unit := fun w =>
  (Returned tt, with_dev (gpu_run n (dev w)) w, []).

Definition get_fenceValue : M N := fun w => (Returned (m_fenceValue (app w)), w, []).
Definition get_frameIndex : M N := fun w => (Returned (m_frameIndex (app w)), w, []).
Definition set_fenceValue (v : N) : M unit := fun w =>
  (Returned tt, with_app (mkApp (m_frameIndex (app w)) v) w, []).
Definition set_frameIndex (i : N) : M unit := fun w =>
  (Returned tt, with_app (mkApp i (m_fenceValue (app w))) w, []).

Definition WaitForSingleObject (v : N) : M unit := fun w =>
  match gpu_wait v (dev w) with
  | Some d => let w' := with_dev d w in
              (Returned tt, w', [mkStep CWaitForSingleObject w w'])
  | None => (Hung, w, [mkStep CWaitForSingleObject w w])
  end.

(** ** [App::Render] *)

(** What the environment answers during one tick: a status for each checked
    call, how far the GPU gets on its own before the tick and between
    [Signal] and the completion check, and the index the surface moves to. *)
Record TickEnv : Type := mkTickEnv {
  hr_allocatorReset : HRESULT;
  hr_listReset : HRESULT;
  hr_listClose : HRESULT;
  hr_present : HRESULT;
  hr_signal : HRESULT;
  hr_setEvent : HRESULT;
  gpu_before : nat;
  gpu_during : nat;
  next_index : N
}.

Definition Render (e : TickEnv) : M unit :=
  gpu_progress (gpu_before e) ;;
  call CAllocatorReset (fun d => d) ;;
  ThrowIfFailed (hr_allocatorReset e) ;;
  call CListReset (dev_list_reset (hr_listReset e)) ;;
  ThrowIfFailed (hr_listReset e) ;;
  i <- get_frameIndex ;;
  call (CResourceBarrier i D3D12_RESOURCE_STATE_PRESENT D3D12_RESOURCE_STATE_RENDER_TARGET)
       (dev_record (CmdTransition i D3D12_RESOURCE_STATE_PRESENT D3D12_RESOURCE_STATE_RENDER_TARGET)) ;;
  call (CClearRenderTargetView i) (dev_record (CmdClear i)) ;;
  call (CResourceBarrier i D3D12_RESOURCE_STATE_RENDER_TARGET D3D12_RESOURCE_STATE_PRESENT)
       (dev_record (CmdTransition i D3D12_RESOURCE_STATE_RENDER_TARGET D3D12_RESOURCE_STATE_PRESENT)) ;;
  call CListClose dev_list_close ;;
  ThrowIfFailed (hr_listClose e) ;;
  call CExecuteCommandLists dev_execute ;;
  call CPresent (dev_present (hr_present e) (next_index e)) ;;
  ThrowIfFailed (hr_present e) ;;
  fence <- get_fenceValue ;;
  call (CSignal fence) (dev_signal (hr_signal e) fence) ;;
  ThrowIfFailed (hr_signal e) ;;
  set_fenceValue (uint64_incr fence) ;;
  gpu_progress (gpu_during e) ;;
  done <- query CGetCompletedValue completed ;;
  (if done <? fence then
     call (CSetEventOnCompletion fence) (fun d => d) ;;
     ThrowIfFailed (hr_setEvent e) ;;
     WaitForSingleObject fence
   else ret tt) ;;
  idx <- query CGetCurrentBackBufferIndex surface_index ;;
  set_frameIndex idx.

(** ** [App::App] *)

(** What the environment answers during construction. *)
Record SetupEnv : Type := mkSetupEnv {
  ok_registerClass : bool;
  ok_adjustRect : bool;
  adjusted_rect : Z * Z * Z * Z;        (* left, top, right, bottom *)
  ok_createWindow : bool;
  last_error : N;                       (* GetLastError() *)
  hr_factory : HRESULT;
  hr_device : HRESULT;
  hr_queue : HRESULT;
  hr_swapChain : HRESULT;
  hr_association : HRESULT;
  hr_as : HRESULT;
  first_index : N;
  hr_heap : HRESULT;
  hr_getBuffer : N -> HRESULT;
  hr_allocator : HRESULT;
  hr_list : HRESULT;
  hr_firstClose : HRESULT;              (* returned by Close, not looked at *)
  hr_fence : HRESULT;
  ok_createEvent : bool
}.

Definition throw_last_error (s : SetupEnv) : M unit :=
  throw (system_error (last_error s)).

Definition dev_create_swap_chain (hr : HRESULT) (w h : Z) (count first : N)
    (d : Device) : Device :=
  if FAILED hr then d
  else mkDevice (list_open d) (list_cmds d) (gpu_queue d) (completed d) first
         (submissions d) (repeat (w, h) (N.to_nat count)).

(** A command list is created in the recording state. *)
Definition dev_create_list (hr : HRESULT) (d : Device) : Device :=
  if FAILED hr then d else set_list true [] d.

Definition dev_create_fence (hr : HRESULT) (initial : N) (d : Device) : Device :=
  if FAILED hr then d else set_completed initial d.

(** The loop over [std::views::iota(0u, FrameCount)]. *)
Fixpoint acquire_buffers (s : SetupEnv) (indices : list N) : M unit :=
  match indices with
  | [] => ret tt
  | frameIndex :: rest =>
      call (CGetBuffer frameIndex) (fun d => d) ;;
      ThrowIfFailed (hr_getBuffer s frameIndex) ;;
      call (CCreateRenderTargetView frameIndex) (fun d => d) ;;
      acquire_buffers s rest
  end.

Definition iota (lo hi : N) : list N :=
  map (fun k => lo + N.of_nat k) (seq 0 (N.to_nat (hi - lo))).

(** The constructor of a release build (the [_DEBUG] block is compiled
    out).  The messages the system sends to [WindowProc] from inside
    [CreateWindowExW] and [ShowWindow] reach its [WM_CREATE] and default
    cases only, which touch neither the device nor the members; they are not
    part of the log.  The [WM_CREATE] sent from inside [CreateWindowExW]
    carries the [CREATESTRUCT] the system has filled in, with [this] as
    [lpCreateParams], so its read goes through. *)
Definition App_ctor (s : SetupEnv) : M unit :=
  call CRegisterClassExW (fun d => d) ;;
  (if ok_registerClass s then ret tt else throw_last_error s) ;;
  call CAdjustWindowRect (fun d => d) ;;
  (if ok_adjustRect s then ret tt else throw_last_error s) ;;
  let '(r_left, r_top, r_right, r_bottom) := adjusted_rect s in
  let windowWidth := (r_right - r_left)%Z in
  let windowHeight := (r_bottom - r_top)%Z in
  call CCreateWindowExW (fun d => d) ;;
  (if ok_createWindow s then ret tt else throw_last_error s) ;;
  call CCreateDXGIFactory2 (fun d => d) ;;
  ThrowIfFailed (hr_factory s) ;;
  call CD3D12CreateDevice (fun d => d) ;;
  ThrowIfFailed (hr_device s) ;;
  call CCreateCommandQueue (fun d => d) ;;
  ThrowIfFailed (hr_queue s) ;;
  call (CCreateSwapChainForHwnd (to_UINT windowWidth) (to_UINT windowHeight) FrameCount)
       (dev_create_swap_chain (hr_swapChain s) (to_UINT windowWidth)
          (to_UINT windowHeight) FrameCount (first_index s)) ;;
  ThrowIfFailed (hr_swapChain s) ;;
  call CMakeWindowAssociation (fun d => d) ;;
  ThrowIfFailed (hr_association s) ;;
  call CSwapChainAs (fun d => d) ;;
  ThrowIfFailed (hr_as s) ;;
  idx <- query CGetCurrentBackBufferIndex surface_index ;;
  set_frameIndex idx ;;
  call CCreateDescriptorHeap (fun d => d) ;;
  ThrowIfFailed (hr_heap s) ;;
  call CGetDescriptorHandleIncrementSize (fun d => d) ;;
  acquire_buffers s (iota 0 FrameCount) ;;
  call CCreateCommandAllocator (fun d => d) ;;
  ThrowIfFailed (hr_allocator s) ;;
  call CCreateCommandList (dev_create_list (hr_list s)) ;;
  ThrowIfFailed (hr_list s) ;;
  call CListClose dev_list_close ;;
  call (CCreateFence 0) (dev_create_fence (hr_fence s) 0) ;;
  ThrowIfFailed (hr_fence s) ;;
  call CCreateEventW (fun d => d) ;;
  (if ok_createEvent s then ret tt else throw_last_error s) ;;
  call CShowWindow (fun d => d).

(** Member initial values before the constructor body runs:
    [m_fenceValue = 0]; nothing exists on the device side yet. *)
Definition no_device : Device := mkDevice false [] [] 0 0 [] [].
Definition world0 : World := mkWorld (mkApp 0 0) no_device false.

(** ** [WindowProc] and [wWinMain] *)

Definition WM_CREATE : Z := 1.
Definition WM_SIZE : Z := 5.
Definition WM_PAINT : Z := 15.
Definition WM_CLOSE : Z := 16.
Definition WM_QUIT : Z := 18.

Record MSG : Type := mkMSG {
  message : Z;
  wParam : Z;
  lParam : Z
}.

(** [lParam] of a [WM_SIZE] message: client width in the low word, height
    in the high word. *)
Definition MAKELPARAM (lo hi : Z) : Z := (lo mod 65536 + 65536 * (hi mod 65536))%Z.
Definition LOWORD (l : Z) : Z := (l mod 65536)%Z.
Definition HIWORD (l : Z) : Z := ((l / 65536) mod 65536)%Z.

Definition post_quit : M unit := fun w =>
  let w' := with_quit w in (Returned tt, w', [mkStep CPostQuitMessage w w']).

(** [e] answers the calls of the [Render] tick a [WM_PAINT] starts;
    [def_result] is what [DefWindowProcW] returns.  The [WM_CREATE] case
    takes [lParam] for a pointer to a [CREATESTRUCT] and reads its
    [lpCreateParams] through it before it calls [SetWindowLongPtr]: with a
    null [lParam] that read is an access violation and the call is never
    made.  Any other [lParam] is taken to point to the [CREATESTRUCT] of
    this window, whose [lpCreateParams] is the [App] that [WM_PAINT]
    renders. *)
Definition WindowProc (uMsg wParam lParam : Z) (e : TickEnv) (def_result : Z)
    : M Z :=
  if (uMsg =? WM_CLOSE)%Z then
    post_quit ;; ret 0%Z
  else if (uMsg =? WM_CREATE)%Z then
    if (lParam =? 0)%Z then fault
    else call CSetWindowLongPtr (fun d => d) ;; ret 0%Z
  else if (uMsg =? WM_PAINT)%Z then
    Render e ;; ret 0%Z
  else
    call (CDefWindowProcW uMsg) (fun d => d) ;; ret def_result.

(** One turn of the message loop as the environment drives it: what
    [PeekMessageW] retrieves (nothing, or a message for the window) and the
    answers for the work that message starts. *)
Record Delivery : Type := mkDelivery {
  delivered : option MSG;
  answers : TickEnv;
  def_result_of : Z
}.

Definition get_quit : M bool := fun w => (Returned (quit_posted w), w, []).

(** [while (message.message != WM_QUIT) { if (PeekMessageW(..)) { ...
    DispatchMessageW(..) } }].  Once [PostQuitMessage] has been called the
    queue hands out [WM_QUIT], a thread message that reaches no window
    procedure.  The result tells whether the loop was left ([true]) or the
    script of deliveries ended with the loop still turning ([false]). *)
Fixpoint message_loop (script : list Delivery) : M bool :=
  match script with
  | [] => ret false
  | d :: rest =>
      q <- get_quit ;;
      match (if q then Some (mkMSG WM_QUIT 0 0) else delivered d) with
      | None => message_loop rest
      | Some m =>
          if (message m =? WM_QUIT)%Z then ret true
          else
            WindowProc (message m) (wParam m) (lParam m)
                       (answers d) (def_result_of d) ;;
            message_loop rest
      end
  end.

(** Members are destroyed in reverse order of declaration; the elements of
    [m_renderTargets] last to first.  [m_fenceEvent] is a plain [HANDLE]
    and [m_debugController] is empty in a release build. *)
Definition release_order : list Call :=
  [ CRelease h_fence; CRelease h_commandList; CRelease h_commandAllocator;
    CRelease (h_renderTarget 1); CRelease (h_renderTarget 0);
    CRelease h_rtvHeap; CRelease h_swapChain; CRelease h_commandQueue;
    CRelease h_device; CRelease h_factory; CDestroyWindow ].

Fixpoint calls_in_order (cs : list Call) : M unit :=
  match cs with
  | [] => ret tt
  | c :: rest => call c (fun d => d) ;; calls_in_order rest
  end.

Definition App_dtor : M unit := calls_in_order release_order.

Inductive ProcessResult : Type :=
| Exited (code : Z)             (* wWinMain returned *)
| Terminated (e : Exception)    (* an exception left wWinMain: std::terminate *)
| Blocked                       (* asleep in WaitForSingleObject for good *)
| Crashed                       (* an access violation ended the process *)
| Running.                      (* still in the message loop *)

Definition wWinMain (s : SetupEnv) (script : list Delivery)
    : ProcessResult * World * list Step :=
  match App_ctor s world0 with
  | (Threw e, w, t) => (Terminated e, w, t)
  | (Hung, w, t) => (Blocked, w, t)
  | (Faulted, w, t) => (Crashed, w, t)
  | (Returned _, w, t) =>
      match message_loop script w with
      | (Threw e, w1, t1) => (Terminated e, w1, t ++ t1)
      | (Hung, w1, t1) => (Blocked, w1, t ++ t1)
      | (Faulted, w1, t1) => (Crashed, w1, t ++ t1)
      | (Returned false, w1, t1) => (Running, w1, t ++ t1)
      | (Returned true, w1, t1) =>
          match App_dtor w1 with
          | (_, w2, t2) => (Exited 0, w2, t ++ t1 ++ t2)
          end
      end
  end.

Definition calls (t : list Step) : list Call := map step_call t.

(** ** Sample environments *)

(** Every call succeeds; the GPU retires [b] items before the tick and [m]
    between [Signal] and the completion check; the surface moves to [i]. *)
Definition tick_ok (b m : nat) (i : N) : TickEnv :=
  mkTickEnv S_OK S_OK S_OK S_OK S_OK S_OK b m i.

Definition setup_ok : SetupEnv :=
  mkSetupEnv true true (0, 0, 816, 639)%Z true 0
    S_OK S_OK S_OK S_OK S_OK S_OK 0 S_OK (fun _ => S_OK) S_OK S_OK S_OK S_OK true.

Definition paint (e : TickEnv) : Delivery :=
  mkDelivery (Some (mkMSG WM_PAINT 0 0)) e 0%Z.
Definition close_request : Delivery :=
  mkDelivery (Some (mkMSG WM_CLOSE 0 0)) (tick_ok 0 0 0) 0%Z.
Definition resize (w h : Z) : Delivery :=
  mkDelivery (Some (mkMSG WM_SIZE 0 (MAKELPARAM w h))) (tick_ok 0 0 0) 0%Z.
Definition idle : Delivery := mkDelivery None (tick_ok 0 0 0) 0%Z.

(** ** Fence values reached, frames in flight *)

(** A fence value is reached once the completed value is at least it; a
    submission without a value yet is not. *)
Definition reached_at (done : N) (s : Submission) : bool :=
  match sub_fence s with
  | Some v => v <=? done
  | None => false
  end.

Definition reached (d : Device) (s : Submission) : bool :=
  reached_at (completed d) s.

Definition all_reached (d : Device) : bool := forallb (reached d) (submissions d).

(** In flight: submitted, fence value not yet reached. *)
Definition in_flight_at (done : N) (subs : list Submission) : list Submission :=
  filter (fun s => negb (reached_at done s)) subs.

Definition in_flight (d : Device) : list Submission :=
  in_flight_at (completed d) (submissions d).

Definition buffers_of (subs : list Submission) : list N :=
  nodup N.eq_dec (flat_map (fun s => map command_buffer (sub_cmds s)) subs).

(** The presentation buffers that frames in flight write to. *)
Definition in_flight_buffers (d : Device) : list N :=
  buffers_of (in_flight d).

Definition is_signal_of (c : N) (op : GpuOp) : bool :=
  match op with
  | GpuSignal v => v =? c
  | _ => true
  end.

(** The state between two ticks. *)
Record Idle (w : World) : Prop := mkIdle {
  idle_closed : list_open (dev w) = false;
  idle_reached : all_reached (dev w) = true;
  idle_queue : forallb (is_signal_of (completed (dev w))) (gpu_queue (dev w)) = true;
  idle_bound : completed (dev w) <= m_fenceValue (app w);
  idle_index : m_frameIndex (app w) = surface_index (dev w)
}.

(** The [Render] ticks that a script of draw requests starts, one after
    the other. *)
Fixpoint run_ticks (es : list TickEnv) : M unit :=
  match es with
  | [] => ret tt
  | e :: rest => Render e ;; run_ticks rest
  end.

(** ** Notions used in the statements *)

(** The GPU touches the queue and the fence, nothing else. *)
Definition same_cpu_side (d d' : Device) : Prop :=
  list_open d' = list_open d /\ list_cmds d' = list_cmds d /\
  surface_index d' = surface_index d /\ submissions d' = submissions d /\
  buffers d' = buffers d.

(** A queue whose pending signals all carry the value the fence already
    shows: whatever the GPU retires, the completed value stays put. *)
Definition quiet (d : Device) : Prop :=
  forallb (is_signal_of (completed d)) (gpu_queue d) = true.

(** After [Signal f] was enqueued behind a quiet queue: either the GPU has
    got past it (queue empty, fence at [f]) or the signal is still the last
    item behind quiet ones. *)
Definition signal_pending (c f : N) (d : Device) : Prop :=
  (gpu_queue d = [] /\ completed d = f) \/
  (exists r, gpu_queue d = r ++ [GpuSignal f] /\
             forallb (is_signal_of c) r = true /\ completed d = c).

(** The three commands of a frame all address the same buffer. *)
Definition frame_cmds (i : N) : list Command :=
  [ CmdTransition i D3D12_RESOURCE_STATE_PRESENT D3D12_RESOURCE_STATE_RENDER_TARGET;
    CmdClear i;
    CmdTransition i D3D12_RESOURCE_STATE_RENDER_TARGET D3D12_RESOURCE_STATE_PRESENT ].

(** [log st r]: the run [r] with [st] put in front of its log. *)
Definition log {A} (st : Step) (r : Outcome A * World * list Step)
    : Outcome A * World * list Step :=
  match r with
  | (o, w, t) => (o, w, st :: t)
  end.

Definition resets (c : Call) : bool :=
  match c with
  | CAllocatorReset | CListReset => true
  | _ => false
  end.

(** The calls made outside [Render] once the constructor is done. *)
Definition outside_render (c : Call) : bool :=
  match c with
  | CPostQuitMessage | CSetWindowLongPtr | CDefWindowProcW _
  | CRelease _ | CDestroyWindow => true
  | _ => false
  end.

(** What holds at every call: at most one buffer in flight before and after
    it; a reset happens on a closed list with every submitted frame's fence
    value reached; outside [Render] the list is closed and every fence value
    reached. *)
Record step_safe (st : Step) : Prop := mkStepSafe {
  safe_before : (length (in_flight_buffers (dev (step_before st))) <= 1)%nat;
  safe_after : (length (in_flight_buffers (dev (step_after st))) <= 1)%nat;
  safe_reset : resets (step_call st) = true ->
               all_reached (dev (step_before st)) = true /\
               list_open (dev (step_before st)) = false;
  safe_outside : outside_render (step_call st) = true ->
                 all_reached (dev (step_before st)) = true /\
                 list_open (dev (step_before st)) = false /\
                 dev (step_after st) = dev (step_before st)
}.

(** The world a tick that returned leaves behind. *)
Record tick_done (w w' : World) : Prop := mkTickDone {
  done_counter : m_fenceValue (app w') = uint64_incr (m_fenceValue (app w));
  done_fence : completed (dev w') = m_fenceValue (app w);
  done_reached : all_reached (dev w') = true;
  done_queue : quiet (dev w');
  done_closed : list_open (dev w') = false;
  done_index : m_frameIndex (app w') = surface_index (dev w');
  done_quit : quit_posted w' = quit_posted w;
  done_buffers : buffers (dev w') = buffers (dev w)
}.

(** The calls of a whole tick on buffer [i] with fence value [f]. *)
Definition frame_calls (i f : N) (waited : bool) : list Call :=
  [ CAllocatorReset; CListReset;
    CResourceBarrier i D3D12_RESOURCE_STATE_PRESENT D3D12_RESOURCE_STATE_RENDER_TARGET;
    CClearRenderTargetView i;
    CResourceBarrier i D3D12_RESOURCE_STATE_RENDER_TARGET D3D12_RESOURCE_STATE_PRESENT;
    CListClose; CExecuteCommandLists; CPresent; CSignal f; CGetCompletedValue ]
  ++ (if waited then [CSetEventOnCompletion f; CWaitForSingleObject] else [])
  ++ [ CGetCurrentBackBufferIndex ].

(** What each call of a tick started in [w] sees: the completion check
    decides the wait, the counter still holds the signalled value when
    [Signal] is called, and the list is reset in the state the tick found. *)
Record tick_step (w : World) (waited : bool) (st : Step) : Prop := mkTickStep {
  step_check : step_call st = CGetCompletedValue ->
               waited = (completed (dev (step_before st)) <? m_fenceValue (app w));
  step_signal : forall v, step_call st = CSignal v ->
                m_fenceValue (app (step_before st)) = v /\
                m_fenceValue (app (step_after st)) = v;
  step_reset : step_call st = CListReset ->
               list_open (dev (step_before st)) = list_open (dev w)
}.

Record tick_returned (e : TickEnv) (w w' : World) (t : list Step) (waited : bool)
    : Prop := mkTickReturned {
  ret_calls : calls t = frame_calls (m_frameIndex (app w)) (m_fenceValue (app w)) waited;
  ret_counter : m_fenceValue (app w') = uint64_incr (m_fenceValue (app w));
  ret_index : m_frameIndex (app w') = surface_index (dev w');
  ret_surface : surface_index (dev w') = next_index e;
  ret_buffers : buffers (dev w') = buffers (dev w);
  ret_closed : list_open (dev w') = false;
  ret_quit : quit_posted w' = quit_posted w;
  ret_fence : waited = true -> m_fenceValue (app w) <= completed (dev w')
}.

Definition window_size (s : SetupEnv) : Z * Z :=
  let '(r_left, r_top, r_right, r_bottom) := adjusted_rect s in
  (to_UINT (r_right - r_left)%Z, to_UINT (r_bottom - r_top)%Z).

(** The calls of a construction that goes through, in program order. *)
Definition ctor_calls (s : SetupEnv) : list Call :=
  [ CRegisterClassExW; CAdjustWindowRect; CCreateWindowExW;
    CCreateDXGIFactory2; CD3D12CreateDevice; CCreateCommandQueue;
    CCreateSwapChainForHwnd (fst (window_size s)) (snd (window_size s)) FrameCount;
    CMakeWindowAssociation; CSwapChainAs; CGetCurrentBackBufferIndex;
    CCreateDescriptorHeap; CGetDescriptorHandleIncrementSize;
    CGetBuffer 0; CCreateRenderTargetView 0;
    CGetBuffer 1; CCreateRenderTargetView 1;
    CCreateCommandAllocator; CCreateCommandList; CListClose;
    CCreateFence 0; CCreateEventW; CShowWindow ].

Definition hr_check (hr : HRESULT) : option Exception :=
  if FAILED hr then Some (mkHrException hr) else None.

Definition ok_check (s : SetupEnv) (ok : bool) : option Exception :=
  if ok then None else Some (system_error (last_error s)).

(** The setup operations whose [HRESULT] goes through [ThrowIfFailed], in
    program order. *)
Definition hr_setup_ops (s : SetupEnv) : list (Call * HRESULT) :=
  [ (CCreateDXGIFactory2, hr_factory s);
    (CD3D12CreateDevice, hr_device s);
    (CCreateCommandQueue, hr_queue s);
    (CCreateSwapChainForHwnd (fst (window_size s)) (snd (window_size s)) FrameCount,
     hr_swapChain s);
    (CMakeWindowAssociation, hr_association s);
    (CSwapChainAs, hr_as s);
    (CCreateDescriptorHeap, hr_heap s);
    (CGetBuffer 0, hr_getBuffer s 0);
    (CGetBuffer 1, hr_getBuffer s 1);
    (CCreateCommandAllocator, hr_allocator s);
    (CCreateCommandList, hr_list s);
    (CCreateFence 0, hr_fence s) ].

Definition hr_checked (p : Call * HRESULT) : Call * option Exception :=
  (fst p, hr_check (snd p)).

(** Every call of the constructor whose result is looked at, in program
    order, with the exception its result leads to (if any): the three window
    calls, the [HRESULT] operations, the event. *)
Definition setup_checks (s : SetupEnv) : list (Call * option Exception) :=
  [ (CRegisterClassExW, ok_check s (ok_registerClass s));
    (CAdjustWindowRect, ok_check s (ok_adjustRect s));
    (CCreateWindowExW, ok_check s (ok_createWindow s)) ]
  ++ map hr_checked (hr_setup_ops s)
  ++ [ (CCreateEventW, ok_check s (ok_createEvent s)) ].

Fixpoint first_failure (l : list (Call * option Exception))
    : option (Call * Exception) :=
  match l with
  | [] => None
  | (c, Some e) :: _ => Some (c, e)
  | (_, None) :: rest => first_failure rest
  end.

(** A world the constructor has just built. *)
Record constructed (s : SetupEnv) (w : World) : Prop := mkConstructed {
  new_idle : Idle w;
  new_counter : m_fenceValue (app w) = 0;
  new_index : m_frameIndex (app w) = first_index s;
  new_fence : completed (dev w) = 0;
  new_queue : gpu_queue (dev w) = [];
  new_submissions : submissions (dev w) = [];
  new_buffers : buffers (dev w) = repeat (window_size s) (N.to_nat FrameCount);
  new_quit : quit_posted w = false
}.

(** No frame exists while the constructor runs, and it resets nothing. *)
Record ctor_step (st : Step) : Prop := mkCtorStep {
  ctor_before : submissions (dev (step_before st)) = [];
  ctor_after : submissions (dev (step_after st)) = [];
  ctor_no_reset : resets (step_call st) = false;
  ctor_inside : outside_render (step_call st) = false;
  ctor_no_wait : step_call st <> CWaitForSingleObject
}.

(** What a message leaves behind when its handler returns. *)
Definition handled (uMsg : Z) (w w' : World) : Prop :=
  (uMsg = WM_PAINT /\ tick_done w w') \/
  (uMsg <> WM_PAINT /\ app w' = app w /\ dev w' = dev w).

Record Synced (w : World) : Prop := mkSynced {
  synced_closed : list_open (dev w) = false;
  synced_index : m_frameIndex (app w) = surface_index (dev w)
}.

Record step_synced (st : Step) : Prop := mkStepSynced {
  reset_on_closed : step_call st = CListReset ->
                    list_open (dev (step_before st)) = false;
  outside_synced : outside_render (step_call st) = true ->
                   Synced (step_before st) /\ Synced (step_after st)
}.

Definition process_result (s : SetupEnv) (script : list Delivery) : ProcessResult :=
  fst (fst (wWinMain s script)).
Definition process_world (s : SetupEnv) (script : list Delivery) : World :=
  snd (fst (wWinMain s script)).
Definition process_trace (s : SetupEnv) (script : list Delivery) : list Step :=
  snd (wWinMain s script).

(** Two draw requests, then the window is closed. *)
Definition sample_script : list Delivery :=
  [ paint (tick_ok 0 0 1); paint (tick_ok 0 0 0); close_request; idle ].

(** The fence values a sequence of calls signals on the queue. *)
Definition signaled (cs : list Call) : list N :=
  flat_map (fun c => match c with CSignal v => [v] | _ => [] end) cs.

Definition is_transition (c : Call) : bool :=
  match c with
  | CResourceBarrier _ _ _ => true
  | _ => false
  end.

(** What a [Signal] call sees of the counter. *)
Definition signals_counter (st : Step) : Prop :=
  forall v, step_call st = CSignal v ->
  m_fenceValue (app (step_before st)) = v /\ m_fenceValue (app (step_after st)) = v.

(** The command queue cannot be created. *)
Definition setup_no_queue : SetupEnv :=
  mkSetupEnv true true (0, 0, 816, 639)%Z true 0
    S_OK S_OK E_FAIL S_OK S_OK S_OK 0 S_OK (fun _ => S_OK) S_OK S_OK S_OK S_OK true.




Definition has_pending_execute (d : Device) : bool :=
  existsb (fun op => match op with GpuExecute _ => true | _ => false end)
          (gpu_queue d).

(** The statuses [Render] passes to [ThrowIfFailed], in program order. *)
Definition tick_statuses (e : TickEnv) : list HRESULT :=
  [ hr_allocatorReset e; hr_listReset e; hr_listClose e; hr_present e;
    hr_signal e; hr_setEvent e ].

(** The calls a tick makes, given which statuses fail and whether it has
    to wait: the sequence of a whole tick, cut after the first call whose
    status fails. *)
Definition tick_calls (e : TickEnv) (i f : N) (waited : bool) : list Call :=
  let all := frame_calls i f waited in
  if FAILED (hr_allocatorReset e) then firstn 1 all
  else if FAILED (hr_listReset e) then firstn 2 all
  else if FAILED (hr_listClose e) then firstn 6 all
  else if FAILED (hr_present e) then firstn 8 all
  else if FAILED (hr_signal e) then firstn 9 all
  else if waited && FAILED (hr_setEvent e) then firstn 11 all
  else all.

(** How such a tick ends: with the exception of the first failing status
    it checks, or by returning. *)
Definition tick_outcome (e : TickEnv) (waited : bool) : Outcome unit :=
  match find FAILED ([ hr_allocatorReset e; hr_listReset e; hr_listClose e;
                       hr_present e; hr_signal e ]
                     ++ (if waited then [hr_setEvent e] else [])) with
  | Some hr => Threw (mkHrException hr)
  | None => Returned tt
  end.

(** [Signal f] is the last item the queue was handed: either the GPU has
    got to it, or it is still at the end of the queue. *)
Definition signal_last (f : N) (d : Device) : Prop :=
  (gpu_queue d = [] /\ completed d = f) \/
  (exists r, gpu_queue d = r ++ [GpuSignal f]).


Definition three_frame_script : list Delivery :=
  [ paint (tick_ok 0 0 1); paint (tick_ok 0 0 0); paint (tick_ok 0 0 1);
    close_request; idle ].

(** ** Notions used in the further properties *)

(** The tick got as far as submitting its frame: the two resets and the
    close went through. *)
Definition recorded_ok (e : TickEnv) : bool :=
  negb (FAILED (hr_allocatorReset e)) && negb (FAILED (hr_listReset e))
  && negb (FAILED (hr_listClose e)).

(** The tick got as far as incrementing the counter: present and signal
    went through as well. *)
Definition signalled_ok (e : TickEnv) : bool :=
  recorded_ok e && negb (FAILED (hr_present e)) && negb (FAILED (hr_signal e)).

Definition is_submit (c : Call) : bool :=
  match c with
  | CExecuteCommandLists | CPresent | CSignal _ => true
  | _ => false
  end.

Definition is_wait (c : Call) : bool :=
  match c with
  | CSetEventOnCompletion _ | CWaitForSingleObject => true
  | _ => false
  end.

(** The effect of a tick started in [w], whatever its outcome. *)
Record tick_effect (e : TickEnv) (w : World) (o : Outcome unit) (w' : World)
    (t : list Step) : Prop := mkTickEffect {
  eff_counter : m_fenceValue (app w') =
                if signalled_ok e then uint64_incr (m_fenceValue (app w))
                else m_fenceValue (app w);
  eff_frames : map sub_cmds (submissions (dev w')) =
               map sub_cmds (submissions (dev w))
               ++ (if recorded_ok e then [frame_cmds (m_frameIndex (app w))] else []);
  eff_unsignalled : recorded_ok e = true -> signalled_ok e = false ->
                    submissions (dev w') =
                    submissions (dev w)
                    ++ [mkSubmission (frame_cmds (m_frameIndex (app w))) None];
  eff_nothing : recorded_ok e = false ->
                submissions (dev w') = submissions (dev w) /\
                gpu_queue (dev w') = gpu_queue (gpu_run (gpu_before e) (dev w));
  eff_submit : existsb is_submit (calls t) = recorded_ok e;
  eff_wait : existsb is_wait (calls t) = true -> 0 < m_fenceValue (app w);
  eff_thrown : forall ex, o = Threw ex ->
               m_frameIndex (app w') = m_frameIndex (app w) /\
               exists pre hr post,
                 tick_statuses e = pre ++ hr :: post /\
                 Forall (fun h => FAILED h = false) pre /\
                 FAILED hr = true /\ ex = mkHrException hr;
  eff_returned : o = Returned tt -> signalled_ok e = true;
  eff_fails : signalled_ok e = false -> exists ex, o = Threw ex;
  eff_hung : o = Hung -> existsb is_wait (calls t) = true;
  eff_quit : quit_posted w' = quit_posted w;
  eff_surface : buffers (dev w') = buffers (dev w)
}.

Definition tick_present_fails : TickEnv :=
  mkTickEnv S_OK S_OK S_OK DXGI_ERROR_DEVICE_REMOVED S_OK S_OK 0 0 1.

Definition tick_close_fails : TickEnv :=
  mkTickEnv S_OK S_OK E_FAIL S_OK S_OK S_OK 0 0 1.

(** How a run that is still in the loop goes on. *)
Definition resume (w : World) (t : list Step) (s2 : list Delivery)
    : ProcessResult * World * list Step :=
  match message_loop s2 w with
  | (Threw ex, w2, t2) => (Terminated ex, w2, t ++ t2)
  | (Hung, w2, t2) => (Blocked, w2, t ++ t2)
  | (Faulted, w2, t2) => (Crashed, w2, t ++ t2)
  | (Returned false, w2, t2) => (Running, w2, t ++ t2)
  | (Returned true, w2, t2) =>
      match App_dtor w2 with
      | (_, w3, t3) => (Exited 0, w3, t ++ t2 ++ t3)
      end
  end.

(** [Present] reports an occluded window, a success code. *)
Definition DXGI_STATUS_OCCLUDED : HRESULT := 142213121%Z.   (* 0x087A0001 *)
Definition tick_occluded : TickEnv :=
  mkTickEnv S_OK S_OK S_OK DXGI_STATUS_OCCLUDED S_OK S_OK 0 0 1.

(** The window and event calls, whose failure is reported through
    [GetLastError]. *)
Definition window_calls : list Call :=
  [ CRegisterClassExW; CAdjustWindowRect; CCreateWindowExW; CCreateEventW ].

(** The window class cannot be registered. *)
Definition setup_no_class : SetupEnv :=
  mkSetupEnv false true (0, 0, 816, 639)%Z true 1410
    S_OK S_OK S_OK S_OK S_OK S_OK 0 S_OK (fun _ => S_OK) S_OK S_OK S_OK S_OK true.

(** The same environment with another status for the constructor's
    [Close]. *)
Definition with_firstClose (hr : HRESULT) (s : SetupEnv) : SetupEnv :=
  mkSetupEnv (ok_registerClass s) (ok_adjustRect s) (adjusted_rect s)
    (ok_createWindow s) (last_error s) (hr_factory s) (hr_device s) (hr_queue s)
    (hr_swapChain s) (hr_association s) (hr_as s) (first_index s) (hr_heap s)
    (hr_getBuffer s) (hr_allocator s) (hr_list s) hr (hr_fence s)
    (ok_createEvent s).

Definition setup_succeeds (s : SetupEnv) : bool :=
  ok_registerClass s && ok_adjustRect s && ok_createWindow s
  && forallb (fun p => negb (FAILED (snd p))) (hr_setup_ops s)
  && ok_createEvent s.

(** Every status is fine except the one [Close] returns in the
    constructor. *)
Definition setup_close_fails : SetupEnv := with_firstClose E_FAIL setup_ok.

Definition state_eqb (a b : D3D12_RESOURCE_STATES) : bool :=
  match a, b with
  | D3D12_RESOURCE_STATE_PRESENT, D3D12_RESOURCE_STATE_PRESENT => true
  | D3D12_RESOURCE_STATE_RENDER_TARGET, D3D12_RESOURCE_STATE_RENDER_TARGET => true
  | _, _ => false
  end.

(** What the GPU requires of a command: a transition names the state the
    buffer is in, a clear needs a render target.  [None] is the error the
    debug layer reports. *)
Definition exec_command (st : N -> D3D12_RESOURCE_STATES) (c : Command)
    : option (N -> D3D12_RESOURCE_STATES) :=
  match c with
  | CmdTransition b before after =>
      if state_eqb (st b) before
      then Some (fun x => if x =? b then after else st x)
      else None
  | CmdClear b =>
      if state_eqb (st b) D3D12_RESOURCE_STATE_RENDER_TARGET then Some st else None
  end.

Fixpoint exec_commands (st : N -> D3D12_RESOURCE_STATES) (cs : list Command)
    : option (N -> D3D12_RESOURCE_STATES) :=
  match cs with
  | [] => Some st
  | c :: rest =>
      match exec_command st c with
      | Some st' => exec_commands st' rest
      | None => None
      end
  end.

Fixpoint exec_frames (st : N -> D3D12_RESOURCE_STATES) (fs : list (list Command))
    : option (N -> D3D12_RESOURCE_STATES) :=
  match fs with
  | [] => Some st
  | f :: rest =>
      match exec_commands st f with
      | Some st' => exec_frames st' rest
      | None => None
      end
  end.

(** Every frame is a transition, a clear and the transition back on one
    buffer, and executing the frames in order from buffers in the present
    state is legal and leaves every buffer in the present state. *)
Definition frames_presentable (d : Device) : Prop :=
  Forall (fun cs => exists i, cs = frame_cmds i) (map sub_cmds (submissions d)) /\
  exists st,
    exec_frames (fun _ => D3D12_RESOURCE_STATE_PRESENT)
                (map sub_cmds (submissions d)) = Some st /\
    forall b, st b = D3D12_RESOURCE_STATE_PRESENT.

(** The fence has reached the last value signalled, and once two frames
    have been signalled nothing is left in the GPU queue. *)
Record in_step (w : World) : Prop := mkInStep {
  step_fence : completed (dev w) = N.pred (m_fenceValue (app w));
  step_queue : 2 <= m_fenceValue (app w) -> gpu_queue (dev w) = []
}.

Definition not_paint (d : Delivery) : Prop :=
  forall m, delivered d = Some m -> message m <> WM_PAINT.

Definition delivers_create (d : Delivery) : Prop :=
  exists m, delivered d = Some m /\ message m = WM_CREATE.

(** A [WM_CREATE] that carries no [CREATESTRUCT]. *)
Definition create_null : Delivery :=
  mkDelivery (Some (mkMSG WM_CREATE 0 0)) (tick_ok 0 0 0) 0.

(** The buffer a recording call addresses is one of the [FrameCount]
    entries of [m_renderTargets]. *)
Definition index_in_ring (c : Call) : Prop :=
  match c with
  | CResourceBarrier b _ _ => b < FrameCount
  | CClearRenderTargetView b => b < FrameCount
  | _ => True
  end.

(** * Properties *)

(** ** The GPU model *)

Lemma same_cpu_side_refl d : same_cpu_side d d.
Proof. repeat split. Qed.

Lemma same_cpu_side_trans d1 d2 d3 :
  same_cpu_side d1 d2 -> same_cpu_side d2 d3 -> same_cpu_side d1 d3.
Proof.
  unfold same_cpu_side. intros (a1 & a2 & a3 & a4 & a5) (b1 & b2 & b3 & b4 & b5).
  repeat split; congruence.
Qed.

Lemma gpu_step_cpu_side d : same_cpu_side d (gpu_step d).
Proof.
  unfold gpu_step. destruct (gpu_queue d) as [|[c| |v] q]; repeat split.
Qed.

Lemma gpu_run_cpu_side n : forall d, same_cpu_side d (gpu_run n d).
Proof.
  induction n as [|n IH]; intros d; simpl.
  - apply same_cpu_side_refl.
  - eapply same_cpu_side_trans; [apply gpu_step_cpu_side | apply IH].
Qed.

Lemma gpu_step_quiet d :
  quiet d -> quiet (gpu_step d) /\ completed (gpu_step d) = completed d.
Proof.
  unfold quiet, gpu_step. destruct (gpu_queue d) as [|[c| |v] q] eqn:E; simpl; intros H.
  - rewrite E. auto.
  - auto.
  - auto.
  - apply andb_prop in H. destruct H as [Hv Hq]. apply N.eqb_eq in Hv.
    subst v. auto.
Qed.

Lemma gpu_run_quiet n : forall d,
  quiet d -> quiet (gpu_run n d) /\ completed (gpu_run n d) = completed d.
Proof.
  induction n as [|n IH]; intros d H; simpl; [auto|].
  destruct (gpu_step_quiet d H) as [H1 H2].
  destruct (IH _ H1) as [H3 H4]. split; [assumption | congruence].
Qed.

Lemma gpu_step_pending c f d :
  signal_pending c f d -> signal_pending c f (gpu_step d).
Proof.
  unfold signal_pending, gpu_step. intros [[Hq Hc] | (r & Hq & Hr & Hc)].
  - rewrite Hq. left. auto.
  - rewrite Hq. destruct r as [|op r]; simpl.
    + left. auto.
    + simpl in Hr. apply andb_prop in Hr. destruct Hr as [Hop Hr].
      right. exists r. destruct op as [cs| |v]; simpl; repeat split; auto.
      simpl in Hop. apply N.eqb_eq in Hop. congruence.
Qed.

Lemma gpu_run_pending c f n : forall d,
  signal_pending c f d -> signal_pending c f (gpu_run n d).
Proof.
  induction n as [|n IH]; intros d H; simpl; [assumption|].
  apply IH. apply gpu_step_pending. assumption.
Qed.

Lemma gpu_wait_loop_drains c f : forall r d,
  gpu_queue d = r ++ [GpuSignal f] ->
  forallb (is_signal_of c) r = true -> completed d = c -> c < f ->
  exists d', gpu_wait_loop (length (r ++ [GpuSignal f])) f d = Some d' /\
             gpu_queue d' = [] /\ completed d' = f /\ same_cpu_side d d'.
Proof.
  induction r as [|op r IH]; intros d Hq Hr Hc Hlt.
  - simpl. rewrite Hc. destruct (N.leb_spec f c) as [Hle|_]; [lia|].
    unfold gpu_step. rewrite Hq. simpl. rewrite N.leb_refl.
    eexists. split; [reflexivity|]. repeat split.
  - simpl in Hr. apply andb_prop in Hr. destruct Hr as [Hop Hr].
    simpl. rewrite Hc. destruct (N.leb_spec f c) as [Hle|_]; [lia|].
    assert (Hs : gpu_queue (gpu_step d) = r ++ [GpuSignal f] /\
                 completed (gpu_step d) = c).
    { unfold gpu_step. rewrite Hq. destruct op as [cs| |v]; simpl; auto.
      simpl in Hop. apply N.eqb_eq in Hop. auto. }
    destruct Hs as [Hq' Hc'].
    destruct (IH (gpu_step d) Hq' Hr Hc' Hlt) as (d' & Hw & H1 & H2 & H3).
    exists d'. split; [exact Hw|]. split; [exact H1|]. split; [exact H2|].
    eapply same_cpu_side_trans; [apply gpu_step_cpu_side | exact H3].
Qed.

(** The wait of a tick returns: the signal it waits for is in the queue. *)
Lemma gpu_wait_returns c f d :
  signal_pending c f d -> completed d < f -> c <= f ->
  exists d', gpu_wait f d = Some d' /\
             gpu_queue d' = [] /\ completed d' = f /\ same_cpu_side d d'.
Proof.
  intros [[Hq Hc] | (r & Hq & Hr & Hc)] Hlt Hle; [lia|].
  unfold gpu_wait. rewrite Hq.
  apply (gpu_wait_loop_drains c f r d Hq Hr Hc). lia.
Qed.

(** ** Frames in flight *)

Lemma reached_at_mono c c' s :
  c <= c' -> reached_at c s = true -> reached_at c' s = true.
Proof.
  unfold reached_at. destruct (sub_fence s) as [v|]; [|discriminate].
  intros Hle H. apply N.leb_le in H. apply N.leb_le. lia.
Qed.

Lemma in_flight_none c subs :
  forallb (reached_at c) subs = true -> in_flight_at c subs = [].
Proof.
  induction subs as [|s subs IH]; simpl; [reflexivity|].
  intros H. apply andb_prop in H. destruct H as [Hs H].
  rewrite Hs. simpl. auto.
Qed.

Lemma in_flight_app c xs ys :
  in_flight_at c (xs ++ ys) = in_flight_at c xs ++ in_flight_at c ys.
Proof. unfold in_flight_at. apply filter_app. Qed.

Lemma assign_fence_reached c v s :
  reached_at c s = true -> assign_fence v s = s.
Proof.
  unfold reached_at, assign_fence. destruct (sub_fence s); [reflexivity|discriminate].
Qed.

Lemma map_assign_reached c v subs :
  forallb (reached_at c) subs = true -> map (assign_fence v) subs = subs.
Proof.
  induction subs as [|s subs IH]; simpl; [reflexivity|].
  intros H. apply andb_prop in H. destruct H as [Hs H].
  rewrite (assign_fence_reached c v s Hs), IH; auto.
Qed.

Lemma forallb_reached_mono c c' subs :
  c <= c' -> forallb (reached_at c) subs = true ->
  forallb (reached_at c') subs = true.
Proof.
  intros Hle H. rewrite forallb_forall in *. intros s Hs.
  apply (reached_at_mono c c'); auto.
Qed.

Lemma buffers_of_frame i fv : buffers_of [mkSubmission (frame_cmds i) fv] = [i].
Proof.
  unfold buffers_of. simpl.
  destruct (N.eq_dec i i) as [_|n]; [|contradiction].
  destruct (N.eq_dec i i) as [_|n]; [|contradiction]. simpl.
  destruct (N.eq_dec i i) as [_|n]; [|contradiction]. reflexivity.
Qed.

(** Old frames reached, one new frame: at most one buffer is in flight. *)
Lemma one_frame_in_flight c c' old i fv :
  forallb (reached_at c) old = true -> c <= c' ->
  (length (buffers_of (in_flight_at c' (old ++ [mkSubmission (frame_cmds i) fv]))) <= 1)%nat.
Proof.
  intros Hold Hle. rewrite in_flight_app.
  rewrite (in_flight_none c' old) by (eapply forallb_reached_mono; eauto).
  simpl. destruct (negb _).
  - rewrite buffers_of_frame. simpl. lia.
  - simpl. lia.
Qed.

Lemma no_frame_in_flight c subs :
  forallb (reached_at c) subs = true ->
  (length (buffers_of (in_flight_at c subs)) <= 1)%nat.
Proof. intros H. rewrite in_flight_none by assumption. simpl. lia. Qed.

(** ** Stepping through monadic code *)

Lemma log_inv {A} st (r : Outcome A * World * list Step) o w t :
  log st r = (o, w, t) -> exists t2, r = (o, w, t2) /\ t = st :: t2.
Proof.
  destruct r as [[o1 w1] t1]. simpl. intros H. inversion H; subst.
  exists t1. auto.
Qed.

Lemma bind_call {A} c f (k : unit -> M A) w :
  bind (call c f) k w =
  log (mkStep c w (with_dev (f (dev w)) w)) (k tt (with_dev (f (dev w)) w)).
Proof. unfold bind, call, log. destruct (k tt _) as [[o w2] t2]. reflexivity. Qed.

Lemma bind_query {A B} c (f : Device -> A) (k : A -> M B) w :
  bind (query c f) k w = log (mkStep c w w) (k (f (dev w)) w).
Proof. unfold bind, query, log. destruct (k _ w) as [[o w2] t2]. reflexivity. Qed.

Lemma bind_post_quit {A} (k : unit -> M A) w :
  bind post_quit k w = log (mkStep CPostQuitMessage w (with_quit w)) (k tt (with_quit w)).
Proof. unfold bind, post_quit, log. destruct (k tt _) as [[o w2] t2]. reflexivity. Qed.

Lemma bind_ThrowIfFailed {A} hr (k : unit -> M A) w :
  bind (ThrowIfFailed hr) k w =
  if FAILED hr then (Threw (mkHrException hr), w, []) else k tt w.
Proof.
  unfold bind, ThrowIfFailed, throw, ret. destruct (FAILED hr); [reflexivity|].
  destruct (k tt w) as [[o w2] t2]. reflexivity.
Qed.

Lemma bind_ret {A B} (a : A) (k : A -> M B) w : bind (ret a) k w = k a w.
Proof. unfold bind, ret. destruct (k a w) as [[o w2] t2]. reflexivity. Qed.

Lemma bind_throw {A B} e (k : A -> M B) w : bind (throw e) k w = (Threw e, w, []).
Proof. reflexivity. Qed.

Lemma bind_gpu_progress {A} n (k : unit -> M A) w :
  bind (gpu_progress n) k w = k tt (with_dev (gpu_run n (dev w)) w).
Proof. unfold bind, gpu_progress. destruct (k tt _) as [[o w2] t2]. reflexivity. Qed.

Lemma bind_get_frameIndex {A} (k : N -> M A) w :
  bind get_frameIndex k w = k (m_frameIndex (app w)) w.
Proof. unfold bind, get_frameIndex. destruct (k _ w) as [[o w2] t2]. reflexivity. Qed.

Lemma bind_get_fenceValue {A} (k : N -> M A) w :
  bind get_fenceValue k w = k (m_fenceValue (app w)) w.
Proof. unfold bind, get_fenceValue. destruct (k _ w) as [[o w2] t2]. reflexivity. Qed.

Lemma bind_get_quit {A} (k : bool -> M A) w :
  bind get_quit k w = k (quit_posted w) w.
Proof. unfold bind, get_quit. destruct (k _ w) as [[o w2] t2]. reflexivity. Qed.

Lemma bind_set_fenceValue {A} v (k : unit -> M A) w :
  bind (set_fenceValue v) k w = k tt (with_app (mkApp (m_frameIndex (app w)) v) w).
Proof. unfold bind, set_fenceValue. destruct (k tt _) as [[o w2] t2]. reflexivity. Qed.

Lemma bind_set_frameIndex {A} v (k : unit -> M A) w :
  bind (set_frameIndex v) k w = k tt (with_app (mkApp v (m_fenceValue (app w))) w).
Proof. unfold bind, set_frameIndex. destruct (k tt _) as [[o w2] t2]. reflexivity. Qed.

Lemma bind_Wait {A} v (k : unit -> M A) w :
  bind (WaitForSingleObject v) k w =
  match gpu_wait v (dev w) with
  | Some d => log (mkStep CWaitForSingleObject w (with_dev d w)) (k tt (with_dev d w))
  | None => (Hung, w, [mkStep CWaitForSingleObject w w])
  end.
Proof.
  unfold bind, WaitForSingleObject, log. destruct (gpu_wait v (dev w)); [|reflexivity].
  destruct (k tt _) as [[o w2] t2]. reflexivity.
Qed.

Lemma bind_assoc {A B C} (c : M A) (k : A -> M B) (h : B -> M C) w :
  bind (bind c k) h w = bind c (fun a => bind (k a) h) w.
Proof.
  unfold bind. destruct (c w) as [[[a|e| |] w1] t1]; try reflexivity.
  destruct (k a w1) as [[[b|e| |] w2] t2]; try reflexivity.
  destruct (h b w2) as [[o w3] t3]. rewrite app_assoc. reflexivity.
Qed.

Lemma bind_if {A B} (b : bool) (c1 c2 : M A) (k : A -> M B) w :
  bind (if b then c1 else c2) k w = if b then bind c1 k w else bind c2 k w.
Proof. destruct b; reflexivity. Qed.

Ltac simpl_world :=
  unfold with_dev, with_app, with_quit in *;
  cbn [dev app quit_posted m_frameIndex m_fenceValue] in *.

(** Peels the next logged step off a run. *)
Ltac peel H :=
  let t2 := fresh "t" in
  let E := fresh "E" in
  apply log_inv in H; destruct H as (t2 & H & E); simpl_world.

(** ** One tick from the idle state *)

Lemma tick_done_idle w w' :
  tick_done w w' -> m_fenceValue (app w) + 1 < UINT64_MOD -> Idle w'.
Proof.
  intros [H1 H2 H3 H4 H5 H6 H7 H8] Hlt. constructor; auto.
  rewrite H1, H2. unfold uint64_incr. rewrite N.mod_small by assumption. lia.
Qed.

Ltac dev_norm :=
  unfold dev_list_reset, dev_record, dev_list_close, dev_execute, dev_present,
         dev_signal, set_list, set_queue, set_completed, set_surface_index,
         set_submissions in *;
  cbn [list_open list_cmds gpu_queue completed surface_index submissions
       buffers List.app] in *.

Ltac call_step H := rewrite bind_call in H; peel H; subst; dev_norm.
Ltac check_step H F :=
  rewrite bind_ThrowIfFailed in H;
  match type of H with
  | context [FAILED ?hr] => destruct (FAILED hr) eqn:F
  end; dev_norm.

(** Once its value is assigned and reached, the new frame is reached too. *)
Lemma frame_reached c f old i :
  forallb (reached_at c) old = true -> c <= f ->
  forallb (reached_at f)
    (map (assign_fence f) (old ++ [mkSubmission (frame_cmds i) None])) = true.
Proof.
  intros Hold Hle. rewrite map_app, forallb_app.
  rewrite (map_assign_reached c f old Hold).
  rewrite (forallb_reached_mono c f old Hle Hold). simpl.
  unfold reached_at. simpl. rewrite N.leb_refl. reflexivity.
Qed.

Lemma one_frame_assigned c c' f old i :
  forallb (reached_at c) old = true -> c <= c' ->
  (length (buffers_of (in_flight_at c'
     (map (assign_fence f) (old ++ [mkSubmission (frame_cmds i) None])))) <= 1)%nat.
Proof.
  intros Hold Hle. rewrite map_app, (map_assign_reached c f old Hold).
  apply (one_frame_in_flight c c' old i (Some f)); assumption.
Qed.

Ltac flight :=
  unfold in_flight_buffers, in_flight;
  cbn [dev step_before step_after completed submissions];
  first [ apply no_frame_in_flight; assumption
        | eapply one_frame_in_flight; [eassumption | lia]
        | eapply one_frame_assigned; [eassumption | lia] ].

Ltac safe_step :=
  constructor;
  [ flight | flight
  | cbn [step_call resets step_before dev list_open]; intros Hx;
    first [ discriminate Hx | split; [assumption | reflexivity] ]
  | cbn [step_call outside_render]; intros Hx; discriminate Hx ].

Ltac thrown H :=
  inversion H; subst; clear H;
  split; [ repeat (apply Forall_cons; [safe_step|]); apply Forall_nil
         | split; [discriminate | intros Hx; discriminate Hx] ].

(** A tick started in the idle state: every call is safe, the wait comes
    back, and a tick that returns leaves the state described by
    [tick_done]. *)
Lemma Render_idle e w o w' t :
  Idle w -> Render e w = (o, w', t) ->
  Forall step_safe t /\ o <> Hung /\ (o = Returned tt -> tick_done w w').
Proof.
  intros [Hclosed Hreached Hquiet Hbound Hindex] H.
  unfold Render in H. rewrite bind_gpu_progress in H.
  destruct (gpu_run_quiet (gpu_before e) (dev w) Hquiet) as [Hq1 Hc1].
  destruct (gpu_run_cpu_side (gpu_before e) (dev w)) as (Ho1 & _ & Hi1 & Hs1 & Hb1).
  remember (gpu_run (gpu_before e) (dev w)) as d1 eqn:Hd1. clear Hd1.
  unfold all_reached, reached in Hreached.
  rewrite Hclosed in Ho1. unfold quiet in Hq1.
  destruct d1 as [o1 cs1 q1 c1 si1 subs1 b1].
  cbn [list_open completed submissions gpu_queue surface_index buffers] in *.
  subst o1 c1 si1 subs1 b1.
  set (c0 := completed (dev w)) in *.
  set (subs0 := submissions (dev w)) in *.
  call_step H. check_step H F1.
  { thrown H. }
  call_step H. check_step H F2.
  { thrown H. }
  rewrite bind_get_frameIndex in H.
  do 4 call_step H. check_step H F3.
  { thrown H. }
  do 2 call_step H. check_step H F4.
  { thrown H. }
  rewrite bind_get_fenceValue in H.
  call_step H. check_step H F5.
  { thrown H. }
  rewrite bind_set_fenceValue in H. simpl_world.
  rewrite bind_gpu_progress in H. simpl_world.
  set (f := m_fenceValue (app w)) in *.
  set (i := m_frameIndex (app w)) in *.
  match type of H with
  | context [gpu_run ?n ?D] =>
      assert (Hp : signal_pending c0 f (gpu_run n D));
      [ apply gpu_run_pending; right;
        exists ((q1 ++ [GpuExecute (frame_cmds i)]) ++ [GpuPresent]);
        split; [reflexivity|]; split; [|reflexivity];
        rewrite !forallb_app, Hq1; reflexivity
      | destruct (gpu_run_cpu_side n D) as (Ho3 & Hl3 & Hi3 & Hs3 & Hb3);
        remember (gpu_run n D) as d3 eqn:Hd3; clear Hd3 ]
  end.
  destruct d3 as [o3 cs3 q3 c3 si3 subs3 b3].
  cbn [list_open list_cmds completed submissions gpu_queue surface_index buffers] in *.
  subst o3 cs3 si3 subs3 b3.
  assert (Hc3 : c0 <= c3 /\ c3 <= f).
  { destruct Hp as [[_ Hc] | (r & _ & _ & Hc)]; cbn in Hc; lia. }
  rewrite bind_query in H. peel H. subst.
  cbn [completed] in H. rewrite bind_if in H.
  destruct (N.ltb_spec c3 f) as [Hlt | Hge].
  - rewrite bind_assoc in H. call_step H.
    rewrite bind_assoc in H. check_step H F6.
    { thrown H. }
    rewrite bind_Wait in H. simpl_world.
    match type of H with
    | context [gpu_wait f ?D] =>
        destruct (gpu_wait_returns c0 f D Hp) as (d4 & Hw & Hq4 & Hc4 & Hsame);
        [ exact Hlt | lia | rewrite Hw in H ]
    end.
    destruct Hsame as (Ho4 & Hl4 & Hi4 & Hs4 & Hb4).
    destruct d4 as [o4 cs4 q4 c4 si4 subs4 b4].
    cbn [list_open list_cmds completed submissions gpu_queue surface_index buffers] in *.
    subst o4 cs4 q4 c4 si4 subs4 b4.
    peel H. subst. rewrite bind_query in H. peel H. subst.
    unfold set_frameIndex in H. simpl_world.
    inversion H; subst; clear H.
    split; [ repeat (apply Forall_cons; [safe_step|]); apply Forall_nil |].
    split; [discriminate|]. intros _.
    constructor; cbn [app dev m_fenceValue m_frameIndex completed list_open
                      surface_index quit_posted buffers]; try reflexivity.
    unfold all_reached, reached. cbn [completed submissions].
    apply (frame_reached c0); [assumption | lia].
  - rewrite bind_ret in H. rewrite bind_query in H. peel H. subst.
    unfold set_frameIndex in H. simpl_world.
    inversion H; subst; clear H.
    split; [ repeat (apply Forall_cons; [safe_step|]); apply Forall_nil |].
    split; [discriminate|]. intros _.
    assert (c3 = f) by lia. subst c3.
    constructor; cbn [app dev m_fenceValue m_frameIndex completed list_open
                      surface_index quit_posted buffers]; try reflexivity.
    + unfold all_reached, reached. cbn [completed submissions].
      apply (frame_reached c0); [assumption | lia].
    + unfold quiet. cbn [completed gpu_queue].
      destruct Hp as [[Hq Hc] | (r & Hq & Hr & Hc)]; cbn in Hq, Hc.
      * rewrite Hq. reflexivity.
      * rewrite Hq, Hc, forallb_app, Hr. simpl. rewrite N.eqb_refl. reflexivity.
Qed.

(** ** The calls of one tick *)

Lemma gpu_wait_loop_cpu_side fuel v : forall d d',
  gpu_wait_loop fuel v d = Some d' -> same_cpu_side d d'.
Proof.
  induction fuel as [|k IH]; intros d d'; simpl.
  - destruct (v <=? completed d); [|discriminate].
    intros H. inversion H. apply same_cpu_side_refl.
  - destruct (v <=? completed d).
    + intros H. inversion H. apply same_cpu_side_refl.
    + intros H. eapply same_cpu_side_trans; [apply gpu_step_cpu_side | eauto].
Qed.

Lemma gpu_wait_cpu_side v d d' : gpu_wait v d = Some d' -> same_cpu_side d d'.
Proof. apply gpu_wait_loop_cpu_side. Qed.

Lemma gpu_wait_loop_reached fuel v : forall d d',
  gpu_wait_loop fuel v d = Some d' -> v <= completed d'.
Proof.
  induction fuel as [|k IH]; intros d d'; simpl.
  - destruct (N.leb_spec v (completed d)) as [Hle|Hgt]; [|discriminate].
    intros E. inversion E; subst. assumption.
  - destruct (N.leb_spec v (completed d)) as [Hle|Hgt].
    + intros E. inversion E; subst. assumption.
    + apply IH.
Qed.

Ltac trace_prefix :=
  eexists; unfold frame_calls; cbn [calls map step_call List.app]; reflexivity.

Ltac trace_checks Hc :=
  repeat (apply Forall_cons;
          [ constructor;
            cbn [step_call step_before step_after dev app completed
                 m_fenceValue list_open];
            [ intros Hx; first [ discriminate Hx | symmetry; exact Hc ]
            | intros v Hx; first [ discriminate Hx
                                 | inversion Hx; split; reflexivity ]
            | intros Hx; first [ discriminate Hx | reflexivity ] ] |]);
  apply Forall_nil.

Ltac thrown_trace H b Hc :=
  inversion H; subst; clear H; exists b;
  split; [ trace_prefix
         | split; [ trace_checks Hc | intros Hx; discriminate Hx ] ].

(** The calls of a tick, whatever the device answers: a prefix of
    [frame_calls], the whole of it when the tick returns. *)
Lemma Render_trace e w o w' t :
  Render e w = (o, w', t) ->
  exists waited,
    (exists rest, frame_calls (m_frameIndex (app w)) (m_fenceValue (app w)) waited
                  = calls t ++ rest) /\
    Forall (tick_step w waited) t /\
    (o = Returned tt -> tick_returned e w w' t waited).
Proof.
  intros H. unfold Render in H. rewrite bind_gpu_progress in H.
  destruct (gpu_run_cpu_side (gpu_before e) (dev w)) as (Ho1 & _ & _ & _ & Hb1).
  remember (gpu_run (gpu_before e) (dev w)) as d1 eqn:Hd1. clear Hd1.
  destruct d1 as [o1 cs1 q1 c1 si1 subs1 b1].
  cbn [buffers list_open] in Hb1, Ho1. subst b1 o1.
  assert (H0 : true = true) by reflexivity.
  call_step H. check_step H F1.
  { thrown_trace H false H0. }
  call_step H. check_step H F2.
  { thrown_trace H false H0. }
  rewrite bind_get_frameIndex in H.
  do 4 call_step H. check_step H F3.
  { thrown_trace H false H0. }
  do 2 call_step H. check_step H F4.
  { thrown_trace H false H0. }
  rewrite bind_get_fenceValue in H.
  call_step H. check_step H F5.
  { thrown_trace H false H0. }
  rewrite bind_set_fenceValue in H. simpl_world.
  rewrite bind_gpu_progress in H. simpl_world.
  set (f := m_fenceValue (app w)) in *.
  set (i := m_frameIndex (app w)) in *.
  match type of H with
  | context [gpu_run ?n ?D] =>
      destruct (gpu_run_cpu_side n D) as (Ho3 & _ & Hi3 & _ & Hb3);
      remember (gpu_run n D) as d3 eqn:Hd3; clear Hd3
  end.
  destruct d3 as [o3 cs3 q3 c3 si3 subs3 b3].
  cbn [surface_index buffers list_open] in Hi3, Hb3, Ho3. subst si3 b3 o3.
  rewrite bind_query in H. peel H. subst.
  cbn [completed] in H. rewrite bind_if in H.
  destruct (c3 <? f) eqn:Hlt.
  - rewrite bind_assoc in H. call_step H.
    rewrite bind_assoc in H. check_step H F6.
    { thrown_trace H true Hlt. }
    rewrite bind_Wait in H. simpl_world.
    match type of H with
    | context [gpu_wait f ?D] => destruct (gpu_wait f D) as [d4|] eqn:Hw
    end.
    2:{ thrown_trace H true Hlt. }
    destruct (gpu_wait_cpu_side _ _ _ Hw) as (Ho4 & _ & Hi4 & _ & Hb4).
    assert (Hf4 : f <= completed d4).
    { apply (gpu_wait_loop_reached _ _ _ _ Hw). }
    destruct d4 as [o4 cs4 q4 c4 si4 subs4 b4].
    cbn [surface_index buffers completed list_open] in Hi4, Hb4, Hf4, Ho4.
    subst si4 b4 o4.
    peel H. subst. rewrite bind_query in H. peel H. subst.
    unfold set_frameIndex in H. simpl_world.
    inversion H; subst; clear H. exists true.
    split; [trace_prefix|]. split; [trace_checks Hlt|].
    intros _. constructor; try reflexivity. intros _. exact Hf4.
  - rewrite bind_ret in H. rewrite bind_query in H. peel H. subst.
    unfold set_frameIndex in H. simpl_world.
    inversion H; subst; clear H. exists false.
    split; [trace_prefix|]. split; [trace_checks Hlt|].
    intros _. constructor; try reflexivity. intros Hx; discriminate Hx.
Qed.

(** ** The calls of one tick, exactly *)

Lemma gpu_step_signal_last f d : signal_last f d -> signal_last f (gpu_step d).
Proof.
  unfold signal_last, gpu_step. intros [[Hq Hc] | [r Hq]]; rewrite Hq.
  - left. auto.
  - destruct r as [|op r]; cbn [List.app].
    + left. split; reflexivity.
    + right. exists r. destruct op; reflexivity.
Qed.

Lemma gpu_run_signal_last f n : forall d,
  signal_last f d -> signal_last f (gpu_run n d).
Proof.
  induction n as [|n IH]; intros d H; cbn [gpu_run]; [assumption|].
  apply IH, gpu_step_signal_last, H.
Qed.

Lemma gpu_step_length d :
  (length (gpu_queue (gpu_step d)) = pred (length (gpu_queue d)))%nat.
Proof.
  unfold gpu_step. destruct (gpu_queue d) as [|[c| |v] q] eqn:E; cbn; auto.
  rewrite E. reflexivity.
Qed.

Lemma gpu_wait_loop_signal_last f : forall fuel d,
  signal_last f d -> (length (gpu_queue d) <= fuel)%nat ->
  gpu_wait_loop fuel f d <> None.
Proof.
  induction fuel as [|k IH]; intros d Hs Hlen; cbn [gpu_wait_loop];
    destruct (N.leb_spec f (completed d)) as [Hle|Hlt]; try discriminate.
  - destruct Hs as [[_ Hc] | [r Hq]]; [lia|].
    rewrite Hq, length_app in Hlen. cbn in Hlen. lia.
  - apply IH; [apply gpu_step_signal_last, Hs|].
    rewrite gpu_step_length. lia.
Qed.

(** Whatever the queue held before: the wait for a value whose [Signal] is
    the last item of the queue comes back. *)
Lemma gpu_wait_signal_last f d : signal_last f d -> gpu_wait f d <> None.
Proof. intros H. apply gpu_wait_loop_signal_last; [exact H | apply Nat.le_refl]. Qed.

Ltac exact_calls :=
  unfold tick_calls, tick_outcome, frame_calls;
  cbn [calls map step_call List.app firstn andb find];
  repeat match goal with F : FAILED _ = _ |- _ => rewrite F end;
  cbn [calls map step_call List.app firstn andb find]; reflexivity.

Ltac thrown_exact H b Hc :=
  inversion H; subst; clear H; exists b;
  split; [ exact_calls | split; [ exact_calls | trace_checks Hc ] ].

(** The calls and the outcome of a tick, exactly, in any world: a tick
    either returns or throws. *)
Lemma Render_exact e w o w' t :
  Render e w = (o, w', t) ->
  exists waited,
    calls t = tick_calls e (m_frameIndex (app w)) (m_fenceValue (app w)) waited /\
    o = tick_outcome e waited /\
    Forall (tick_step w waited) t.
Proof.
  intros H. unfold Render in H. rewrite bind_gpu_progress in H.
  destruct (gpu_run_cpu_side (gpu_before e) (dev w)) as (Ho1 & _ & _ & _ & _).
  remember (gpu_run (gpu_before e) (dev w)) as d1 eqn:Hd1. clear Hd1.
  destruct d1 as [o1 cs1 q1 c1 si1 subs1 b1].
  cbn [list_open] in Ho1. subst o1.
  assert (H0 : true = true) by reflexivity.
  call_step H. check_step H F1.
  { thrown_exact H false H0. }
  call_step H. check_step H F2.
  { thrown_exact H false H0. }
  rewrite bind_get_frameIndex in H.
  do 4 call_step H. check_step H F3.
  { thrown_exact H false H0. }
  do 2 call_step H. check_step H F4.
  { thrown_exact H false H0. }
  rewrite bind_get_fenceValue in H.
  call_step H. check_step H F5.
  { thrown_exact H false H0. }
  rewrite bind_set_fenceValue in H. simpl_world.
  rewrite bind_gpu_progress in H. simpl_world.
  set (f := m_fenceValue (app w)) in *.
  set (i := m_frameIndex (app w)) in *.
  match type of H with
  | context [gpu_run ?n ?D] =>
      assert (Hlast : signal_last f (gpu_run n D))
        by (apply gpu_run_signal_last; right; eexists; reflexivity);
      remember (gpu_run n D) as d3 eqn:Hd3; clear Hd3
  end.
  destruct d3 as [o3 cs3 q3 c3 si3 subs3 b3].
  rewrite bind_query in H. peel H. subst.
  cbn [completed] in H. rewrite bind_if in H.
  destruct (c3 <? f) eqn:Hlt.
  - rewrite bind_assoc in H. call_step H.
    rewrite bind_assoc in H. check_step H F6.
    { thrown_exact H true Hlt. }
    rewrite bind_Wait in H. simpl_world.
    match type of H with
    | context [gpu_wait f ?D] => destruct (gpu_wait f D) as [d4|] eqn:Hw
    end.
    2:{ exfalso. revert Hw. apply gpu_wait_signal_last. exact Hlast. }
    destruct d4 as [o4 cs4 q4 c4 si4 subs4 b4].
    peel H. subst. rewrite bind_query in H. peel H. subst.
    unfold set_frameIndex in H. simpl_world.
    thrown_exact H true Hlt.
  - rewrite bind_ret in H. rewrite bind_query in H. peel H. subst.
    unfold set_frameIndex in H. simpl_world.
    thrown_exact H false Hlt.
Qed.

Lemma tick_outcome_ends e waited :
  tick_outcome e waited <> Hung /\ tick_outcome e waited <> Faulted.
Proof.
  unfold tick_outcome.
  destruct (find _ _); split; discriminate.
Qed.

(** A tick ends by returning or by throwing, in any world. *)
Lemma Render_ends e w o w' t :
  Render e w = (o, w', t) -> o <> Hung /\ o <> Faulted.
Proof.
  intros H. destruct (Render_exact e w o w' t H) as (waited & _ & -> & _).
  apply tick_outcome_ends.
Qed.

(** ** Construction *)

Ltac ok_step H F :=
  rewrite bind_if in H;
  match type of H with
  | context [if ?b then _ else _] => destruct b eqn:F
  end;
  [ rewrite bind_ret in H | unfold throw_last_error in H; rewrite bind_throw in H ].

Ltac ctor_norm :=
  unfold dev_create_swap_chain, dev_create_list, dev_create_fence, no_device in *;
  dev_norm.

Ltac ctor_call H := rewrite ?bind_assoc in H; rewrite bind_call in H; peel H; subst; ctor_norm.

Ltac ctor_steps :=
  repeat (apply Forall_cons;
          [ constructor;
            cbn [step_before step_after step_call dev submissions resets outside_render];
            first [ reflexivity | discriminate ] |]);
  apply Forall_nil.

Ltac ctor_thrown H :=
  inversion H; subst; clear H;
  split; [ eexists; cbn [calls map step_call List.app]; reflexivity
         | split; [ ctor_steps | cbn [first_failure]; split; reflexivity ] ].

Ltac ctor_check H F :=
  rewrite ?bind_assoc in H; check_step H F; [ ctor_thrown H |].

Ltac ctor_ok H F :=
  rewrite ?bind_assoc in H; ok_step H F; [| ctor_thrown H ].

(** The constructor: its calls are a prefix of [ctor_calls], it stops at the
    first check that fails with the exception of that check, and builds an
    idle world otherwise. *)
Lemma App_ctor_run s o w t :
  App_ctor s world0 = (o, w, t) ->
  (exists rest, ctor_calls s = calls t ++ rest) /\
  Forall ctor_step t /\
  match first_failure (setup_checks s) with
  | Some (c, e) => o = Threw e /\ last (calls t) CShowWindow = c
  | None => o = Returned tt /\ constructed s w /\ calls t = ctor_calls s
  end.
Proof.
  intros H. unfold App_ctor, world0 in H.
  unfold setup_checks, hr_setup_ops, ctor_calls.
  cbn [map List.app]. unfold hr_checked, hr_check, ok_check. cbn [fst snd].
  assert (Hsize : window_size s =
            (let '(r_left, r_top, r_right, r_bottom) := adjusted_rect s in
             (to_UINT (r_right - r_left)%Z, to_UINT (r_bottom - r_top)%Z)))
    by reflexivity.
  destruct (adjusted_rect s) as [[[r_left r_top] r_right] r_bottom].
  rewrite Hsize. cbn [fst snd].
  ctor_call H. ctor_ok H F1.
  ctor_call H. ctor_ok H F2.
  ctor_call H. ctor_ok H F3.
  ctor_call H. ctor_check H F4.
  ctor_call H. ctor_check H F5.
  ctor_call H. ctor_check H F6.
  ctor_call H. ctor_check H F7.
  ctor_call H. ctor_check H F8.
  ctor_call H. ctor_check H F9.
  rewrite bind_query in H. peel H. subst. ctor_norm.
  rewrite bind_set_frameIndex in H. simpl_world.
  ctor_call H. ctor_check H F10.
  ctor_call H.
  change (iota 0 FrameCount) with [0; 1] in H. cbn [acquire_buffers] in H.
  ctor_call H. ctor_check H F11.
  ctor_call H.
  ctor_call H. ctor_check H F12.
  ctor_call H.
  rewrite ?bind_assoc in H. rewrite bind_ret in H.
  ctor_call H. ctor_check H F13.
  ctor_call H. ctor_check H F14.
  ctor_call H.
  ctor_call H. ctor_check H F15.
  ctor_call H. ctor_ok H F16.
  unfold call in H. simpl_world. inversion H; subst; clear H.
  split; [ exists []; reflexivity |].
  split; [ ctor_steps |].
  cbn [first_failure]. split; [reflexivity|]. split; [|reflexivity].
  constructor; try reflexivity.
  - constructor; first [reflexivity | cbn; lia].
  - rewrite Hsize. reflexivity.
Qed.

(** ** The message loop *)

Lemma with_dev_same w : with_dev (dev w) w = w.
Proof. destruct w; reflexivity. Qed.

Lemma idle_call_safe c w w' :
  Idle w -> dev w' = dev w -> resets c = false -> step_safe (mkStep c w w').
Proof.
  intros [Hclosed Hreached _ _ _] Hdev Hc.
  constructor; cbn [step_before step_after step_call].
  - unfold in_flight_buffers, in_flight. apply no_frame_in_flight. exact Hreached.
  - rewrite Hdev. unfold in_flight_buffers, in_flight.
    apply no_frame_in_flight. exact Hreached.
  - rewrite Hc. discriminate.
  - intros _. auto.
Qed.

Lemma ctor_step_safe st : ctor_step st -> step_safe st.
Proof.
  intros [Hb Ha Hr Ho _]. constructor.
  - unfold in_flight_buffers, in_flight. rewrite Hb. simpl. lia.
  - unfold in_flight_buffers, in_flight. rewrite Ha. simpl. lia.
  - rewrite Hr. discriminate.
  - rewrite Ho. discriminate.
Qed.

Lemma calls_in_order_run cs w :
  calls_in_order cs w = (Returned tt, w, map (fun c => mkStep c w w) cs).
Proof.
  induction cs as [|c cs IH]; [reflexivity|].
  cbn [calls_in_order map]. rewrite bind_call, with_dev_same, IH. reflexivity.
Qed.

Lemma WindowProc_idle uMsg wp lp e dr w o w' t :
  Idle w -> WindowProc uMsg wp lp e dr w = (o, w', t) ->
  Forall step_safe t /\ o <> Hung /\ (forall r, o = Returned r -> handled uMsg w w').
Proof.
  intros Hidle H. unfold WindowProc in H.
  destruct (Z.eqb_spec uMsg WM_CLOSE) as [Hclose|_].
  { rewrite bind_post_quit in H. peel H. unfold ret in H. inversion H; subst.
    split; [|split; [discriminate|]].
    - apply Forall_cons; [apply idle_call_safe; auto | apply Forall_nil].
    - intros _ _. right. repeat split; auto. discriminate. }
  destruct (Z.eqb_spec uMsg WM_CREATE) as [Hcreate|_].
  { destruct (lp =? 0)%Z.
    { unfold fault in H. inversion H; subst.
      split; [apply Forall_nil|]. split; [discriminate|].
      intros r Hx; discriminate Hx. }
    rewrite bind_call in H. peel H. unfold ret in H. inversion H; subst.
    split; [|split; [discriminate|]].
    - apply Forall_cons; [apply idle_call_safe; auto | apply Forall_nil].
    - intros _ _. right. repeat split; auto. discriminate. }
  destruct (Z.eqb_spec uMsg WM_PAINT) as [Hpaint|Hother].
  { unfold bind in H. destruct (Render e w) as [[o1 w1] t1] eqn:HR.
    destruct (Render_idle e w o1 w1 t1 Hidle HR) as (Hsafe & Hhung & Hdone).
    destruct o1 as [[]|ex| |]; cbn in H; inversion H; subst; rewrite ?app_nil_r.
    - split; [assumption|]. split; [discriminate|]. intros _ _. left. auto.
    - split; [assumption|]. split; [discriminate|]. intros r Hx; discriminate Hx.
    - contradiction.
    - split; [assumption|]. split; [discriminate|]. intros r Hx; discriminate Hx. }
  rewrite bind_call in H. peel H. unfold ret in H. inversion H; subst.
  split; [|split; [discriminate|]].
  - apply Forall_cons; [apply idle_call_safe; auto | apply Forall_nil].
  - intros _ _. right. repeat split; auto.
Qed.

Lemma handled_idle uMsg w w' :
  Idle w -> m_fenceValue (app w) + 1 < UINT64_MOD -> handled uMsg w w' ->
  Idle w' /\ m_fenceValue (app w') <= m_fenceValue (app w) + 1.
Proof.
  intros Hidle Hlt [[_ Hdone] | (_ & Happ & Hdev)].
  - split; [eapply tick_done_idle; eauto|].
    rewrite (done_counter _ _ Hdone). unfold uint64_incr.
    rewrite N.mod_small by assumption. lia.
  - destruct Hidle as [H1 H2 H3 H4 H5]. split.
    + constructor; rewrite ?Happ, ?Hdev; assumption.
    + rewrite Happ. lia.
Qed.

(** The loop keeps every call safe and never sleeps for good, as long as
    the fence counter cannot wrap within the script. *)
Lemma message_loop_safe : forall script w o w' t,
  Idle w ->
  m_fenceValue (app w) + N.of_nat (length script) < UINT64_MOD ->
  message_loop script w = (o, w', t) ->
  Forall step_safe t /\ o <> Hung /\
  (forall b, o = Returned b ->
     Idle w' /\
     m_fenceValue (app w') <= m_fenceValue (app w) + N.of_nat (length script)).
Proof.
  induction script as [|d rest IH]; intros w o w' t Hidle Hlen H.
  - cbn in H. inversion H; subst.
    split; [apply Forall_nil | split; [discriminate | intros; split; [auto|lia]]].
  - cbn [message_loop] in H. rewrite bind_get_quit in H.
    cbn [length] in Hlen |- *.
    assert (Hstop : (Returned true, w, @nil Step) = (o, w', t) ->
                    Forall step_safe t /\ o <> Hung /\
                    (forall b, o = Returned b ->
                       Idle w' /\
                       m_fenceValue (app w') <=
                       m_fenceValue (app w) + N.of_nat (S (length rest)))).
    { intros E. inversion E; subst.
      split; [apply Forall_nil | split; [discriminate | intros; split; [auto|lia]]]. }
    destruct (if quit_posted w then Some (mkMSG WM_QUIT 0 0) else delivered d)
      as [m|] eqn:Hpeek.
    2:{ destruct (IH w o w' t Hidle ltac:(lia) H) as (Hs & Hh & Hi).
        split; [assumption | split; [assumption |]].
        intros b Hb. destruct (Hi b Hb). split; [assumption | lia]. }
    destruct (message m =? WM_QUIT)%Z; [exact (Hstop H)|].
    unfold bind in H.
    destruct (WindowProc _ _ _ _ _ w) as [[o1 w1] t1] eqn:HW.
    destruct (WindowProc_idle _ _ _ _ _ _ _ _ _ Hidle HW) as (Hsafe & Hhung & Hret).
    destruct o1 as [r|ex| |].
    + destruct (handled_idle _ _ _ Hidle ltac:(lia) (Hret r eq_refl)) as [Hidle1 Hf1].
      destruct (message_loop rest w1) as [[o2 w2] t2] eqn:HL.
      inversion H; subst.
      destruct (IH w1 o w' t2 Hidle1 ltac:(lia) HL) as (Hs2 & Hh2 & Hi2).
      split; [apply Forall_app; auto | split; [assumption|]].
      intros b Hb. destruct (Hi2 b Hb). split; [assumption | lia].
    + inversion H; subst.
      split; [assumption | split; [discriminate |]].
      intros b Hx; discriminate Hx.
    + contradiction.
    + inversion H; subst.
      split; [assumption | split; [discriminate |]].
      intros b Hx; discriminate Hx.
Qed.

(** A message other than [WM_PAINT]: one call outside [Render], or the
    fault of [WM_CREATE]. *)
Lemma WindowProc_other uMsg wp lp e dr w :
  uMsg <> WM_PAINT ->
  (uMsg = WM_CREATE /\ WindowProc uMsg wp lp e dr w = (Faulted, w, [])) \/
  (exists r c w',
     WindowProc uMsg wp lp e dr w = (Returned r, w', [mkStep c w w']) /\
     outside_render c = true /\ app w' = app w /\ dev w' = dev w).
Proof.
  intros Hne. unfold WindowProc.
  destruct (uMsg =? WM_CLOSE)%Z.
  { right. rewrite bind_post_quit. unfold ret, log. do 3 eexists.
    split; [reflexivity|]. repeat split. }
  destruct (Z.eqb_spec uMsg WM_CREATE) as [Hcreate|_].
  { destruct (lp =? 0)%Z; [left; split; [exact Hcreate | reflexivity]|].
    right. rewrite bind_call, with_dev_same. unfold ret, log. do 3 eexists.
    split; [reflexivity|]. repeat split. }
  destruct (Z.eqb_spec uMsg WM_PAINT) as [Heq|_]; [contradiction|].
  right. rewrite bind_call, with_dev_same. unfold ret, log. do 3 eexists.
  split; [reflexivity|]. repeat split.
Qed.

(** ** The whole process *)

Lemma dtor_run w :
  App_dtor w = (Returned tt, w, map (fun c => mkStep c w w) release_order).
Proof. apply calls_in_order_run. Qed.

Lemma dtor_safe w :
  Idle w -> Forall step_safe (map (fun c => mkStep c w w) release_order).
Proof.
  intros Hidle. unfold release_order. cbn [map].
  repeat (apply Forall_cons; [apply idle_call_safe; auto |]). apply Forall_nil.
Qed.

(** A process whose script is too short for the 64-bit fence counter to
    wrap: every call it makes is safe, it never sleeps for good, and between
    messages its world is idle. *)
Lemma wWinMain_safe s script r w t :
  N.of_nat (length script) < UINT64_MOD ->
  wWinMain s script = (r, w, t) ->
  Forall step_safe t /\ r <> Blocked /\
  (r = Running \/ r = Exited 0 ->
     Idle w /\ m_fenceValue (app w) <= N.of_nat (length script)).
Proof.
  intros Hlen H. unfold wWinMain in H.
  destruct (App_ctor s world0) as [[o0 w0] t0] eqn:HC.
  destruct (App_ctor_run s o0 w0 t0 HC) as (_ & Hsteps & Hout).
  assert (Hsafe0 : Forall step_safe t0).
  { eapply Forall_impl; [|exact Hsteps]. apply ctor_step_safe. }
  destruct (first_failure (setup_checks s)) as [[c ex]|].
  - destruct Hout as [-> _]. inversion H; subst.
    split; [assumption|]. split; [discriminate|].
    intros [Hx|Hx]; discriminate Hx.
  - destruct Hout as (-> & Hnew & _).
    destruct (message_loop script w0) as [[o1 w1] t1] eqn:HL.
    destruct (message_loop_safe script w0 o1 w1 t1 (new_idle _ _ Hnew)) as (Hs1 & Hh1 & Hi1).
    { rewrite (new_counter _ _ Hnew). lia. }
    { exact HL. }
    destruct o1 as [[|]|ex| |].
    + rewrite dtor_run in H. inversion H; subst.
      destruct (Hi1 true eq_refl) as [Hidle Hf].
      rewrite (new_counter _ _ Hnew) in Hf.
      split; [|split; [discriminate | intros _; split; [assumption | lia]]].
      apply Forall_app. split; [assumption|].
      apply Forall_app. split; [assumption|]. apply dtor_safe. assumption.
    + inversion H; subst.
      destruct (Hi1 false eq_refl) as [Hidle Hf].
      rewrite (new_counter _ _ Hnew) in Hf.
      split; [apply Forall_app; auto|].
      split; [discriminate | intros _; split; [assumption | lia]].
    + inversion H; subst.
      split; [apply Forall_app; auto|]. split; [discriminate|].
      intros [Hx|Hx]; discriminate Hx.
    + contradiction.
    + inversion H; subst.
      split; [apply Forall_app; auto|]. split; [discriminate|].
      intros [Hx|Hx]; discriminate Hx.
Qed.

(** ** Invariants of the message loop, in general *)

Section LoopInvariant.

Variable Inv : World -> Prop.
Variable Good : Step -> Prop.
Variable s : SetupEnv.

Hypothesis Inv_quit : forall w, Inv w -> Inv (with_quit w).
Hypothesis Good_outside : forall c w w',
  Inv w -> Inv w' -> outside_render c = true -> dev w' = dev w ->
  Good (mkStep c w w').
Hypothesis Render_Inv : forall e w o w' t,
  Inv w -> Render e w = (o, w', t) ->
  Forall Good t /\ (o = Returned tt -> Inv w').
Hypothesis ctor_Inv : forall w, constructed s w -> Inv w.
Hypothesis ctor_Good : forall st, ctor_step st -> Good st.

Lemma WindowProc_inv uMsg wp lp e dr w o w' t :
  Inv w -> WindowProc uMsg wp lp e dr w = (o, w', t) ->
  Forall Good t /\ (forall r, o = Returned r -> Inv w').
Proof.
  intros HI H. unfold WindowProc in H.
  destruct (uMsg =? WM_CLOSE)%Z.
  { rewrite bind_post_quit in H. apply log_inv in H.
    destruct H as (t2 & H & ->). unfold ret in H. inversion H; subst.
    split; [|auto].
    apply Forall_cons; [apply Good_outside; auto | apply Forall_nil]. }
  destruct (uMsg =? WM_CREATE)%Z.
  { destruct (lp =? 0)%Z.
    { unfold fault in H. inversion H; subst.
      split; [apply Forall_nil|]. intros r Hx; discriminate Hx. }
    rewrite bind_call, with_dev_same in H. apply log_inv in H.
    destruct H as (t2 & H & ->). unfold ret in H. inversion H; subst.
    split; [|auto].
    apply Forall_cons; [apply Good_outside; auto | apply Forall_nil]. }
  destruct (uMsg =? WM_PAINT)%Z.
  { unfold bind in H. destruct (Render e w) as [[o1 w1] t1] eqn:HR.
    destruct (Render_Inv e w o1 w1 t1 HI HR) as (Hgood & Hdone).
    destruct o1 as [[]|ex| |]; cbn in H; inversion H; subst; rewrite ?app_nil_r;
      (split; [assumption|]); auto; intros r Hx; discriminate Hx. }
  rewrite bind_call, with_dev_same in H. apply log_inv in H.
  destruct H as (t2 & H & ->). unfold ret in H. inversion H; subst.
  split; [|auto].
  apply Forall_cons; [apply Good_outside; auto | apply Forall_nil].
Qed.

Lemma message_loop_inv : forall script w o w' t,
  Inv w -> message_loop script w = (o, w', t) ->
  Forall Good t /\ (forall b, o = Returned b -> Inv w').
Proof.
  induction script as [|d rest IH]; intros w o w' t HI H.
  - cbn in H. inversion H; subst. split; [apply Forall_nil | auto].
  - cbn [message_loop] in H. rewrite bind_get_quit in H.
    destruct (if quit_posted w then Some (mkMSG WM_QUIT 0 0) else delivered d)
      as [m|]; [|eauto].
    destruct (message m =? WM_QUIT)%Z.
    { inversion H; subst. split; [apply Forall_nil | auto]. }
    unfold bind in H.
    destruct (WindowProc _ _ _ _ _ w) as [[o1 w1] t1] eqn:HW.
    destruct (WindowProc_inv _ _ _ _ _ _ _ _ _ HI HW) as (Hgood & Hret).
    destruct o1 as [r|ex| |].
    + destruct (message_loop rest w1) as [[o2 w2] t2] eqn:HL.
      inversion H; subst.
      destruct (IH w1 o w' t2 (Hret r eq_refl) HL) as (Hg2 & Hi2).
      split; [apply Forall_app; auto | assumption].
    + inversion H; subst. split; [assumption|]. intros b Hx; discriminate Hx.
    + inversion H; subst. split; [assumption|]. intros b Hx; discriminate Hx.
    + inversion H; subst. split; [assumption|]. intros b Hx; discriminate Hx.
Qed.

Lemma wWinMain_inv script r w t :
  wWinMain s script = (r, w, t) ->
  Forall Good t /\ (r = Running \/ r = Exited 0 -> Inv w).
Proof.
  intros H. unfold wWinMain in H.
  destruct (App_ctor s world0) as [[o0 w0] t0] eqn:HC.
  destruct (App_ctor_run s o0 w0 t0 HC) as (_ & Hsteps & Hout).
  assert (Hgood0 : Forall Good t0).
  { eapply Forall_impl; [|exact Hsteps]. apply ctor_Good. }
  destruct (first_failure (setup_checks s)) as [[c ex]|].
  - destruct Hout as [-> _]. inversion H; subst.
    split; [assumption|]. intros [Hx|Hx]; discriminate Hx.
  - destruct Hout as (-> & Hnew & _).
    destruct (message_loop script w0) as [[o1 w1] t1] eqn:HL.
    destruct (message_loop_inv script w0 o1 w1 t1 (ctor_Inv _ Hnew) HL)
      as (Hg1 & Hi1).
    destruct o1 as [[|]|ex| |].
    + rewrite dtor_run in H. inversion H; subst.
      split; [|eauto].
      apply Forall_app. split; [assumption|].
      apply Forall_app. split; [assumption|].
      unfold release_order. cbn [map].
      repeat (apply Forall_cons; [apply Good_outside; eauto |]).
      apply Forall_nil.
    + inversion H; subst. split; [apply Forall_app; auto | eauto].
    + inversion H; subst.
      split; [apply Forall_app; auto|]. intros [Hx|Hx]; discriminate Hx.
    + inversion H; subst.
      split; [apply Forall_app; auto|]. intros [Hx|Hx]; discriminate Hx.
    + inversion H; subst.
      split; [apply Forall_app; auto|]. intros [Hx|Hx]; discriminate Hx.
Qed.

End LoopInvariant.

(** ** Closed list and synchronized index, with no bound on the run *)

Lemma frame_calls_inside i f waited :
  Forall (fun c => outside_render c = false) (frame_calls i f waited).
Proof. destruct waited; repeat constructor. Qed.

Lemma Render_synced e w o w' t :
  Synced w -> Render e w = (o, w', t) ->
  Forall step_synced t /\ (o = Returned tt -> Synced w').
Proof.
  intros [Hclosed Hindex] H.
  destruct (Render_trace e w o w' t H) as (waited & (rest & Hpre) & Hsteps & Hret).
  split.
  - assert (Hin : Forall (fun c => outside_render c = false) (calls t)).
    { pose proof (frame_calls_inside (m_frameIndex (app w)) (m_fenceValue (app w)) waited) as Hall.
      rewrite Hpre in Hall. apply Forall_app in Hall. tauto. }
    unfold calls in Hin. rewrite Forall_map in Hin.
    rewrite Forall_forall in *. intros st Hst. constructor.
    + intros Hc. rewrite (step_reset _ _ _ (Hsteps st Hst) Hc). exact Hclosed.
    + intros Hc. rewrite (Hin st Hst) in Hc. discriminate Hc.
  - intros Ho. destruct (Hret Ho). constructor; assumption.
Qed.

Lemma ctor_step_synced st : ctor_step st -> step_synced st.
Proof.
  intros [_ _ Hr Ho _]. constructor.
  - intros Hc. rewrite Hc in Hr. discriminate Hr.
  - intros Hc. rewrite Ho in Hc. discriminate Hc.
Qed.

Lemma constructed_synced s w : constructed s w -> Synced w.
Proof. intros [[H1 _ _ _ H5] _ _ _ _ _ _ _]. constructor; assumption. Qed.

(** Every process, however long it runs: the list is reset only when
    closed, and outside [Render] it is closed and the stored index is the
    surface's. *)
Lemma wWinMain_synced s script r w t :
  wWinMain s script = (r, w, t) ->
  Forall step_synced t /\ (r = Running \/ r = Exited 0 -> Synced w).
Proof.
  apply (wWinMain_inv Synced step_synced s).
  - intros w0 [H1 H2]. constructor; assumption.
  - intros c w0 w1 H0 H1 Hc Hdev. constructor; cbn [step_call step_before step_after].
    + intros ->. discriminate Hc.
    + auto.
  - apply Render_synced.
  - apply constructed_synced.
  - apply ctor_step_synced.
Qed.

(** ** The process as a function of its environment *)

Lemma process_eq s script :
  wWinMain s script =
  (process_result s script, process_world s script, process_trace s script).
Proof.
  unfold process_result, process_world, process_trace.
  destruct (wWinMain s script) as [[r w] t]. reflexivity.
Qed.

(** * The claims *)

(** ** The fence protocol *)

(** C1. Before any reset of the allocator or of the command list, every
    frame submitted so far has been assigned a fence value and the completed
    value of the fence is at least that value; this holds at every reset of
    every process whose script is short enough for the 64-bit counter not to
    wrap, the first ticks after startup included. *)
Theorem C1_reset_only_after_fence_reached s script :
  N.of_nat (length script) < UINT64_MOD ->
  Forall (fun st =>
            resets (step_call st) = true ->
            forall sub, In sub (submissions (dev (step_before st))) ->
            exists v, sub_fence sub = Some v /\
                      v <= completed (dev (step_before st)))
         (process_trace s script).
Proof.
  intros Hlen.
  destruct (wWinMain_safe s script _ _ _ Hlen (process_eq s script)) as (Hsafe & _).
  eapply Forall_impl; [|exact Hsafe].
  intros st Hst Hreset sub Hin.
  destruct (safe_reset _ Hst Hreset) as [Hall _].
  unfold all_reached in Hall. rewrite forallb_forall in Hall.
  specialize (Hall sub Hin). unfold reached, reached_at in Hall.
  destruct (sub_fence sub) as [v|]; [|discriminate].
  exists v. split; [reflexivity|]. apply N.leb_le. exact Hall.
Qed.

Lemma C1_reset_only_after_fence_reached_witness :
  N.of_nat (length three_frame_script) < UINT64_MOD /\
  Forall (fun st =>
            resets (step_call st) = true ->
            forall sub, In sub (submissions (dev (step_before st))) ->
            exists v, sub_fence sub = Some v /\
                      v <= completed (dev (step_before st)))
         (process_trace setup_ok three_frame_script).
Proof.
  split; [reflexivity|].
  apply (C1_reset_only_after_fence_reached setup_ok three_frame_script). reflexivity.
Defined.

(** The run of the witness gets to resets that depend on the wait: its third
    tick resets the allocator with the frame of fence value 1 submitted, and
    finds that value reached only because the second tick has waited for
    it. *)
Example third_reset_follows_a_wait :
  existsb (fun st =>
             resets (step_call st) &&
             existsb (fun sub => match sub_fence sub with
                                 | Some v => (v =? 1) && (completed (dev (step_before st)) =? 1)
                                 | None => false
                                 end)
                     (submissions (dev (step_before st))))
          (process_trace setup_ok three_frame_script) = true /\
  existsb (fun c => match c with CWaitForSingleObject => true | _ => false end)
          (calls (process_trace setup_ok [paint (tick_ok 0 0 1); paint (tick_ok 0 0 0)]))
  = true.
Proof. split; vm_compute; reflexivity. Qed.

(** C4. With [FrameCount = 2] buffers, before and after every call the
    process makes at most [FrameCount - 1] presentation buffers are in flight
    (written by a submitted frame whose fence value is not reached), so
    never all of them. *)
Theorem C4_never_all_buffers_in_flight s script :
  N.of_nat (length script) < UINT64_MOD ->
  Forall (fun st =>
            (length (in_flight_buffers (dev (step_before st)))
               <= N.to_nat (FrameCount - 1))%nat /\
            (length (in_flight_buffers (dev (step_after st)))
               <= N.to_nat (FrameCount - 1))%nat)
         (process_trace s script).
Proof.
  intros Hlen.
  destruct (wWinMain_safe s script _ _ _ Hlen (process_eq s script)) as (Hsafe & _).
  eapply Forall_impl; [|exact Hsafe].
  intros st [Hb Ha _ _]. change (N.to_nat (FrameCount - 1)) with 1%nat.
  split; assumption.
Qed.

Lemma C4_never_all_buffers_in_flight_witness :
  N.of_nat (length three_frame_script) < UINT64_MOD /\
  Forall (fun st =>
            (length (in_flight_buffers (dev (step_before st)))
               <= N.to_nat (FrameCount - 1))%nat /\
            (length (in_flight_buffers (dev (step_after st)))
               <= N.to_nat (FrameCount - 1))%nat)
         (process_trace setup_ok three_frame_script).
Proof.
  split; [reflexivity|].
  apply (C4_never_all_buffers_in_flight setup_ok three_frame_script). reflexivity.
Defined.

(** The bound of C4 is met: while the second frame of the sample run waits
    for its fence value, one buffer is in flight. *)
Example one_buffer_in_flight_happens :
  existsb (fun st => (length (in_flight_buffers (dev (step_after st))) =? 1)%nat)
          (process_trace setup_ok sample_script) = true.
Proof. reflexivity. Qed.

(** ** Fence values *)

Lemma signaled_frame i f waited : signaled (frame_calls i f waited) = [f].
Proof. destruct waited; reflexivity. Qed.

Lemma signaled_app t1 t2 :
  signaled (calls (t1 ++ t2)) = signaled (calls t1) ++ signaled (calls t2).
Proof. unfold signaled, calls. rewrite map_app, flat_map_app. reflexivity. Qed.

Lemma count_from_succ f n :
  map (fun k => f + N.of_nat k) (seq 0 (S n)) =
  f :: map (fun k => (f + 1) + N.of_nat k) (seq 0 n).
Proof.
  cbn [seq map]. rewrite N.add_0_r. f_equal.
  rewrite <- seq_shift, map_map. apply map_ext. intros k. lia.
Qed.

Lemma run_ticks_signals : forall es w w' t,
  m_fenceValue (app w) < UINT64_MOD ->
  m_fenceValue (app w) + N.of_nat (length es) <= UINT64_MOD ->
  run_ticks es w = (Returned tt, w', t) ->
  signaled (calls t) =
    map (fun k => m_fenceValue (app w) + N.of_nat k) (seq 0 (length es)) /\
  Forall signals_counter t /\
  m_fenceValue (app w') =
    (m_fenceValue (app w) + N.of_nat (length es)) mod UINT64_MOD.
Proof.
  induction es as [|e rest IH]; intros w w' t Hrange Hlen H.
  - cbn in H. inversion H; subst. cbn [length seq map calls signaled flat_map].
    split; [reflexivity|]. split; [apply Forall_nil|].
    cbn [N.of_nat]. rewrite N.add_0_r, N.mod_small; [reflexivity | assumption].
  - cbn [run_ticks] in H. unfold bind in H.
    destruct (Render e w) as [[o1 w1] t1] eqn:HR.
    destruct (Render_trace e w o1 w1 t1 HR) as (waited & _ & Hsteps & Hret).
    destruct o1 as [[]|ex| |]; try discriminate H.
    destruct (Hret eq_refl) as [Hcalls Hcounter _ _ _ _ _ _].
    destruct (run_ticks rest w1) as [[o2 w2] t2] eqn:HT.
    inversion H; subst. clear H.
    assert (Hsig1 : Forall signals_counter t1).
    { eapply Forall_impl; [|exact Hsteps]. intros st Hst. exact (step_signal _ _ _ Hst). }
    cbn [length] in Hlen |- *. rewrite signaled_app, Hcalls, signaled_frame, count_from_succ.
    unfold uint64_incr in Hcounter.
    destruct rest as [|e2 rest].
    + cbn in HT. inversion HT; subst.
      cbn [calls map signaled flat_map seq length]. rewrite !app_nil_r.
      split; [reflexivity|]. split; [assumption|].
      rewrite Hcounter. f_equal.
    + assert (Hsmall : m_fenceValue (app w) + 1 < UINT64_MOD) by (cbn [length] in Hlen; lia).
      rewrite N.mod_small in Hcounter by assumption.
      destruct (IH w1 w' t2) as (Hs & Hc & Hf).
      { rewrite Hcounter. assumption. }
      { rewrite Hcounter. lia. }
      { exact HT. }
      rewrite Hcounter in Hs, Hf.
      split; [rewrite Hs; reflexivity|].
      split; [apply Forall_app; auto|].
      rewrite Hf. f_equal. lia.
Qed.

(** C3. From a freshly constructed [App], the tick number [i] (counting
    from 0) of any run of ticks signals the fence value [i]: the signalled
    values are 0, 1, 2, ... with no repetition, each is the value the counter
    holds when [Signal] is called, and the counter is one more after each
    tick.  The run has at most [2^64] ticks, the range of the [UINT64]
    counter. *)
Theorem C3_fence_values_count_up s w0 t0 es w t :
  App_ctor s world0 = (Returned tt, w0, t0) ->
  N.of_nat (length es) <= UINT64_MOD ->
  run_ticks es w0 = (Returned tt, w, t) ->
  signaled (calls t) = map N.of_nat (seq 0 (length es)) /\
  NoDup (signaled (calls t)) /\
  Forall signals_counter t /\
  m_fenceValue (app w) = N.of_nat (length es) mod UINT64_MOD.
Proof.
  intros Hctor Hlen Hrun.
  destruct (App_ctor_run s _ _ _ Hctor) as (_ & _ & Hout).
  destruct (first_failure (setup_checks s)) as [[c ex]|];
    [destruct Hout as [Hx _]; discriminate Hx|].
  destruct Hout as (_ & Hnew & _).
  pose proof (new_counter _ _ Hnew) as H0.
  destruct (run_ticks_signals es w0 w t) as (Hs & Hc & Hf).
  { rewrite H0. reflexivity. }
  { rewrite H0. lia. }
  { exact Hrun. }
  rewrite H0 in Hs, Hf. cbn [N.add] in Hs, Hf.
  assert (Hs' : signaled (calls t) = map N.of_nat (seq 0 (length es))).
  { rewrite Hs. apply map_ext. intros k. lia. }
  split; [exact Hs'|]. split; [|split; [exact Hc | rewrite Hf; f_equal; lia]].
  rewrite Hs'. apply Injective_map_NoDup; [|apply seq_NoDup].
  intros a b Hab. apply Nat2N.inj. exact Hab.
Qed.

Lemma C3_fence_values_count_up_witness :
  let es := [tick_ok 0 0 1; tick_ok 0 0 0; tick_ok 1 0 1] in
  let w0 := snd (fst (App_ctor setup_ok world0)) in
  let r := run_ticks es w0 in
  signaled (calls (snd r)) = map N.of_nat (seq 0 (length es)) /\
  NoDup (signaled (calls (snd r))) /\
  Forall signals_counter (snd r) /\
  m_fenceValue (app (snd (fst r))) = N.of_nat (length es) mod UINT64_MOD.
Proof.
  cbv zeta.
  apply (C3_fence_values_count_up setup_ok
           (snd (fst (App_ctor setup_ok world0))) (snd (App_ctor setup_ok world0))).
  - vm_compute. reflexivity.
  - vm_compute. discriminate.
  - vm_compute. reflexivity.
Defined.

(** ** The tick *)

Ltac tick_cases e waited :=
  unfold tick_calls, tick_outcome, tick_statuses, frame_calls;
  destruct waited; cbn [find List.app];
  (destruct (FAILED (hr_allocatorReset e)) eqn:F1;
   [|destruct (FAILED (hr_listReset e)) eqn:F2;
     [|destruct (FAILED (hr_listClose e)) eqn:F3;
       [|destruct (FAILED (hr_present e)) eqn:F4;
         [|destruct (FAILED (hr_signal e)) eqn:F5;
           [|destruct (FAILED (hr_setEvent e)) eqn:F6]]]]]);
  cbn [andb firstn List.app find].

Lemma tick_calls_returned e i f waited :
  tick_outcome e waited = Returned tt ->
  tick_calls e i f waited = frame_calls i f waited.
Proof. tick_cases e waited; intros H; try discriminate H; reflexivity. Qed.

Lemma tick_outcome_ok e waited :
  Forall (fun hr => FAILED hr = false) (tick_statuses e) ->
  tick_outcome e waited = Returned tt.
Proof.
  intros H. rewrite Forall_forall in H.
  assert (H1 := H (hr_allocatorReset e)). assert (H2 := H (hr_listReset e)).
  assert (H3 := H (hr_listClose e)). assert (H4 := H (hr_present e)).
  assert (H5 := H (hr_signal e)). assert (H6 := H (hr_setEvent e)).
  unfold tick_statuses in *. cbn [In] in *.
  unfold tick_outcome. cbn [find List.app].
  rewrite H1, H2, H3, H4, H5 by tauto.
  destruct waited; cbn [find]; [rewrite H6 by tauto|]; reflexivity.
Qed.

Lemma tick_calls_transitions e i f waited :
  (length (filter is_transition (tick_calls e i f waited)) <= 2)%nat.
Proof. tick_cases e waited; cbn; lia. Qed.


(** C5. The calls of a [Render] tick are exactly these, in this order:
    allocator reset, list reset, transition of the current buffer from
    present to render target, clear of that buffer, transition back to
    present, close, submit, present, signal of the counter's value,
    completion check, arming the event and waiting (exactly when the check
    finds the fence below the value signalled), and the query of the current
    buffer index.  This holds in any state.  A tick stops early only where a
    status it checks fails, right after the failing call, and throws that
    status; otherwise it returns, having gone through the whole sequence with
    exactly two transitions.  No tick records more than two. *)
Theorem C5_tick_call_order e w :
  let i := m_frameIndex (app w) in
  let f := m_fenceValue (app w) in
  let r := Render e w in
  exists waited,
    calls (snd r) = tick_calls e i f waited /\
    fst (fst r) = tick_outcome e waited /\
    Forall (fun st => step_call st = CGetCompletedValue ->
                      waited = (completed (dev (step_before st)) <? f)) (snd r) /\
    (length (filter is_transition (calls (snd r))) <= 2)%nat /\
    (fst (fst r) = Returned tt ->
       calls (snd r) = frame_calls i f waited /\
       length (filter is_transition (calls (snd r))) = 2%nat) /\
    (Forall (fun hr => FAILED hr = false) (tick_statuses e) ->
       fst (fst r) = Returned tt).
Proof.
  cbv zeta. destruct (Render e w) as [[o w'] t] eqn:HR. cbn [fst snd].
  destruct (Render_exact e w o w' t HR) as (waited & Hcalls & Ho & Hsteps).
  exists waited. split; [exact Hcalls|]. split; [exact Ho|]. split.
  { eapply Forall_impl; [|exact Hsteps]. intros st Hst. exact (step_check _ _ _ Hst). }
  split; [rewrite Hcalls; apply tick_calls_transitions|]. split.
  - intros Hret. rewrite Ho in Hret.
    rewrite Hcalls, (tick_calls_returned _ _ _ _ Hret).
    split; [reflexivity | destruct waited; reflexivity].
  - intros Hok. rewrite Ho. apply tick_outcome_ok. exact Hok.
Qed.

Lemma C5_tick_call_order_witness :
  let e := tick_ok 0 0 1 in
  let w := process_world setup_ok [paint (tick_ok 0 0 1)] in
  let i := m_frameIndex (app w) in
  let f := m_fenceValue (app w) in
  let r := Render e w in
  exists waited,
    calls (snd r) = tick_calls e i f waited /\
    fst (fst r) = tick_outcome e waited /\
    Forall (fun st => step_call st = CGetCompletedValue ->
                      waited = (completed (dev (step_before st)) <? f)) (snd r) /\
    (length (filter is_transition (calls (snd r))) <= 2)%nat /\
    (fst (fst r) = Returned tt ->
       calls (snd r) = frame_calls i f waited /\
       length (filter is_transition (calls (snd r))) = 2%nat) /\
    (Forall (fun hr => FAILED hr = false) (tick_statuses e) ->
       fst (fst r) = Returned tt).
Proof.
  exact (C5_tick_call_order (tick_ok 0 0 1)
           (process_world setup_ok [paint (tick_ok 0 0 1)])).
Defined.

(** The tick of the witness waits, and a tick whose [Present] fails stops
    right after that call. *)
Example tick_sequences :
  calls (snd (Render (tick_ok 0 0 1) (process_world setup_ok [paint (tick_ok 0 0 1)])))
  = frame_calls 1 1 true /\
  calls (snd (Render tick_present_fails (process_world setup_ok [])))
  = firstn 8 (frame_calls 0 0 false).
Proof. split; vm_compute; reflexivity. Qed.









(** C6. Whenever the process is between two messages, the stored index
    [m_frameIndex] is the index the surface reports; it was read from the
    surface by the constructor, and a tick ends by reading it again after its
    present, so that after the tick it is whatever the surface moved to
    ([next_index e]), the same index as before included: the program never
    advances it on its own. *)
Theorem C6_index_is_what_the_surface_reports s script e w' t :
  process_result s script = Running ->
  Render e (process_world s script) = (Returned tt, w', t) ->
  let w := process_world s script in
  m_frameIndex (app w) = surface_index (dev w) /\
  (script = [] -> m_frameIndex (app w) = first_index s) /\
  m_frameIndex (app w') = surface_index (dev w') /\
  surface_index (dev w') = next_index e /\
  (next_index e = m_frameIndex (app w) -> m_frameIndex (app w') = m_frameIndex (app w)) /\
  last (calls t) CPresent = CGetCurrentBackBufferIndex.
Proof.
  intros Hrun HR w.
  destruct (wWinMain_synced s script _ _ _ (process_eq s script)) as (_ & Hsync).
  destruct (Hsync (or_introl Hrun)) as [_ Hindex]. fold w in Hindex.
  destruct (Render_trace e w _ _ _ HR) as (waited & _ & _ & Hret).
  destruct (Hret eq_refl) as [Hcalls _ Hi Hs _ _ _ _].
  split; [exact Hindex|]. split.
  - intros ->. unfold w, process_world, wWinMain.
    destruct (App_ctor s world0) as [[o0 w0] t0] eqn:HC.
    destruct (App_ctor_run s o0 w0 t0 HC) as (_ & _ & Hout).
    unfold process_result, wWinMain in Hrun. rewrite HC in Hrun.
    destruct (first_failure (setup_checks s)) as [[c ex]|].
    + destruct Hout as [-> _]. discriminate Hrun.
    + destruct Hout as (-> & Hnew & _). cbn. exact (new_index _ _ Hnew).
  - split; [exact Hi|]. split; [exact Hs|]. split.
    + intros Hsame. congruence.
    + rewrite Hcalls. destruct waited; reflexivity.
Qed.

Lemma C6_index_is_what_the_surface_reports_witness :
  let e := tick_ok 0 0 0 in
  let w := process_world setup_ok [] in
  let r := Render e w in
  m_frameIndex (app w) = surface_index (dev w) /\
  (@nil Delivery = [] -> m_frameIndex (app w) = first_index setup_ok) /\
  m_frameIndex (app (snd (fst r))) = surface_index (dev (snd (fst r))) /\
  surface_index (dev (snd (fst r))) = next_index e /\
  (next_index e = m_frameIndex (app w) ->
   m_frameIndex (app (snd (fst r))) = m_frameIndex (app w)) /\
  last (calls (snd r)) CPresent = CGetCurrentBackBufferIndex.
Proof.
  cbv zeta.
  apply (C6_index_is_what_the_surface_reports setup_ok [] (tick_ok 0 0 0)).
  - vm_compute. reflexivity.
  - vm_compute. reflexivity.
Defined.

(** ** The command list *)

(** C10. The constructor closes the command list right after creating it;
    every reset of the list finds it closed; and at every call made outside
    [Render] after construction, as well as whenever the process is between
    two messages or has left the loop, the list is closed. *)
Theorem C10_list_closed_outside_render s script :
  Forall (fun st =>
            (step_call st = CListReset ->
             list_open (dev (step_before st)) = false) /\
            (outside_render (step_call st) = true ->
             list_open (dev (step_before st)) = false /\
             list_open (dev (step_after st)) = false))
         (process_trace s script) /\
  (process_result s script = Running \/ process_result s script = Exited 0 ->
   list_open (dev (process_world s script)) = false /\
   exists pre post,
     calls (process_trace s script) =
     pre ++ CCreateCommandList :: CListClose :: post).
Proof.
  destruct (wWinMain_synced s script _ _ _ (process_eq s script)) as (Hsteps & Hsync).
  split.
  - eapply Forall_impl; [|exact Hsteps]. intros st [Hr Ho]. split; [exact Hr|].
    intros Hc. destruct (Ho Hc) as [[H1 _] [H2 _]]. auto.
  - intros Hres. split; [exact (synced_closed _ (Hsync Hres))|].
    unfold process_result, process_trace, wWinMain in *.
    destruct (App_ctor s world0) as [[o0 w0] t0] eqn:HC.
    destruct (App_ctor_run s o0 w0 t0 HC) as (_ & _ & Hout).
    destruct (first_failure (setup_checks s)) as [[c ex]|].
    + destruct Hout as [-> _]. cbn in Hres. destruct Hres as [Hx|Hx]; discriminate Hx.
    + destruct Hout as (-> & _ & Hcalls).
      assert (Hsplit : exists pre post,
                 calls t0 = pre ++ CCreateCommandList :: CListClose :: post).
      { rewrite Hcalls. unfold ctor_calls.
        eexists (firstn 17 (ctor_calls s)), [CCreateFence 0; CCreateEventW; CShowWindow].
        reflexivity. }
      destruct Hsplit as (pre & post & Hsplit).
      destruct (message_loop script w0) as [[[[|]|ex| |] w1] t1];
        cbn [fst snd]; unfold calls in *;
        try destruct (App_dtor w1) as [[o2 w2] t2]; cbn [fst snd];
        rewrite map_app, Hsplit, <- app_assoc; cbn [List.app];
        eexists pre, _; reflexivity.
Qed.

Lemma C10_list_closed_outside_render_witness :
  Forall (fun st =>
            (step_call st = CListReset ->
             list_open (dev (step_before st)) = false) /\
            (outside_render (step_call st) = true ->
             list_open (dev (step_before st)) = false /\
             list_open (dev (step_after st)) = false))
         (process_trace setup_ok sample_script) /\
  list_open (dev (process_world setup_ok sample_script)) = false /\
  exists pre post,
    calls (process_trace setup_ok sample_script) =
    pre ++ CCreateCommandList :: CListClose :: post.
Proof.
  destruct (C10_list_closed_outside_render setup_ok sample_script) as [Hsteps Hend].
  split; [exact Hsteps|]. apply Hend. right. reflexivity.
Defined.

(** ** The message of [HrException] *)

Lemma hex_value_digit d : (0 <= d < 16)%Z -> hex_value (hex_digit d) = d.
Proof.
  intros Hd.
  assert (H : (d = 0 \/ d = 1 \/ d = 2 \/ d = 3 \/ d = 4 \/ d = 5 \/ d = 6 \/
               d = 7 \/ d = 8 \/ d = 9 \/ d = 10 \/ d = 11 \/ d = 12 \/
               d = 13 \/ d = 14 \/ d = 15)%Z) by lia.
  repeat (destruct H as [-> | H]; [reflexivity|]). subst d. reflexivity.
Qed.

Lemma hex_read_fixed width : forall acc u,
  hex_read acc (hex_fixed width u) =
  (acc * 16 ^ Z.of_nat width + u mod 16 ^ Z.of_nat width)%Z.
Proof.
  induction width as [|k IH]; intros acc u.
  - cbn [hex_fixed hex_read]. change (16 ^ Z.of_nat 0)%Z with 1%Z.
    rewrite Z.mod_1_r. lia.
  - cbn [hex_fixed hex_read]. rewrite IH.
    rewrite hex_value_digit by (apply Z.mod_pos_bound; lia).
    rewrite Nat2Z.inj_succ, Z.pow_succ_r by lia.
    rewrite (Z.mul_comm 16 (16 ^ Z.of_nat k)).
    rewrite (Z.rem_mul_r u (16 ^ Z.of_nat k) 16) by lia.
    lia.
Qed.

Lemma of_to_UINT hr : is_HRESULT hr -> of_UINT (to_UINT hr) = hr.
Proof.
  unfold is_HRESULT, of_UINT, to_UINT, UINT_MOD. intros Hr.
  destruct (Z.ltb_spec (hr mod 2 ^ 32) (2 ^ 31)) as [Hlt|Hge];
    revert Hlt || revert Hge; Z.div_mod_to_equations; lia.
Qed.

(** The message text carries the status code: it can be read back. *)
Lemma code_in_message_HrToString hr :
  is_HRESULT hr -> code_in_message (HrToString hr) = hr.
Proof.
  intros Hr. unfold code_in_message, HrToString.
  cbn [String.append string_drop]. rewrite hex_read_fixed.
  change (16 ^ Z.of_nat 8)%Z with UINT_MOD. unfold to_UINT.
  rewrite Z.mod_mod by (unfold UINT_MOD; lia).
  rewrite Z.mul_0_l, Z.add_0_l. apply of_to_UINT. exact Hr.
Qed.

(** ** Setup failures *)

Lemma first_failure_skip pre rest :
  Forall (fun p => FAILED (snd p) = false) pre ->
  first_failure (map hr_checked pre ++ rest) = first_failure rest.
Proof.
  induction pre as [|[c hr] pre IH]; intros Hpre; [reflexivity|].
  inversion Hpre as [|x l Hhr Hrest]; subst. cbn [snd] in Hhr.
  cbn [map List.app hr_checked fst snd first_failure]. unfold hr_check.
  rewrite Hhr. apply IH. assumption.
Qed.

Lemma NoDup_ctor_calls s : NoDup (ctor_calls s).
Proof.
  unfold ctor_calls.
  repeat (apply NoDup_cons;
          [ cbn [In]; intros Hin;
            repeat (destruct Hin as [Hin|Hin]; [discriminate Hin|]); exact Hin |]).
  apply NoDup_nil.
Qed.

Lemma NoDup_app_disjoint {A} (p r : list A) :
  NoDup (p ++ r) -> forall x, In x r -> ~ In x p.
Proof.
  induction p as [|a p IH]; intros Hnd x Hr Hp; [exact Hp|].
  cbn [List.app] in Hnd. inversion Hnd as [|y l Hnot Hnd']; subst.
  destruct Hp as [->|Hp].
  - apply Hnot. apply in_or_app. right. exact Hr.
  - exact (IH Hnd' x Hr Hp).
Qed.

(** C9. When a setup operation checked by [ThrowIfFailed] (factory, device,
    queue, swap chain, descriptor heap, buffers, allocator, command list,
    fence) is the first to report a failing status [hr], the constructor
    throws an [HrException] that carries [hr] and whose message spells [hr]
    out in hexadecimal; the failing call is the last call the process makes,
    none of the later steps runs, and the exception leaves [wWinMain], which
    terminates the process. *)
Theorem C9_setup_failure_terminates s script pre c hr post :
  ok_registerClass s = true -> ok_adjustRect s = true -> ok_createWindow s = true ->
  hr_setup_ops s = pre ++ (c, hr) :: post ->
  Forall (fun p => FAILED (snd p) = false) pre ->
  FAILED hr = true ->
  is_HRESULT hr ->
  process_result s script = Terminated (HrException hr (HrToString hr)) /\
  Error (HrException hr (HrToString hr)) = Some hr /\
  code_in_message (HrToString hr) = hr /\
  last (calls (process_trace s script)) CShowWindow = c /\
  exists rest,
    ctor_calls s = calls (process_trace s script) ++ rest /\
    forall c', In c' rest -> ~ In c' (calls (process_trace s script)).
Proof.
  intros H1 H2 H3 Hsplit Hpre Hfail Hrange.
  assert (Hfirst : first_failure (setup_checks s) = Some (c, mkHrException hr)).
  { unfold setup_checks, ok_check. rewrite H1, H2, H3, Hsplit.
    cbn [List.app first_failure]. rewrite map_app, <- app_assoc.
    rewrite first_failure_skip by assumption.
    cbn [map List.app hr_checked fst snd first_failure]. unfold hr_check.
    rewrite Hfail. reflexivity. }
  unfold process_result, process_trace, wWinMain.
  destruct (App_ctor s world0) as [[o0 w0] t0] eqn:HC.
  destruct (App_ctor_run s o0 w0 t0 HC) as ((rest & Hprefix) & _ & Hout).
  rewrite Hfirst in Hout. destruct Hout as [-> Hlast]. cbn [fst snd].
  split; [reflexivity|]. split; [reflexivity|].
  split; [apply code_in_message_HrToString; assumption|].
  split; [exact Hlast|].
  exists rest. split; [exact Hprefix|].
  apply NoDup_app_disjoint. rewrite <- Hprefix. apply NoDup_ctor_calls.
Qed.

Lemma C9_setup_failure_terminates_witness :
  process_result setup_no_queue sample_script
    = Terminated (HrException E_FAIL (HrToString E_FAIL)) /\
  Error (HrException E_FAIL (HrToString E_FAIL)) = Some E_FAIL /\
  code_in_message (HrToString E_FAIL) = E_FAIL /\
  last (calls (process_trace setup_no_queue sample_script)) CShowWindow
    = CCreateCommandQueue /\
  exists rest,
    ctor_calls setup_no_queue
      = calls (process_trace setup_no_queue sample_script) ++ rest /\
    forall c', In c' rest ->
               ~ In c' (calls (process_trace setup_no_queue sample_script)).
Proof.
  apply (C9_setup_failure_terminates setup_no_queue sample_script
           (firstn 2 (hr_setup_ops setup_no_queue))
           CCreateCommandQueue E_FAIL
           (skipn 3 (hr_setup_ops setup_no_queue))).
  - reflexivity.
  - reflexivity.
  - reflexivity.
  - reflexivity.
  - repeat constructor.
  - reflexivity.
  - unfold is_HRESULT, E_FAIL. lia.
Defined.

(** ** Shutdown *)




(** ** Resizing *)

(** The buffers are those the swap chain was created with, for good. *)
Lemma buffers_never_rebuilt s script :
  process_result s script = Running \/ process_result s script = Exited 0 ->
  buffers (dev (process_world s script)) =
  repeat (window_size s) (N.to_nat FrameCount).
Proof.
  pose (Inv := fun w => buffers (dev w) = repeat (window_size s) (N.to_nat FrameCount)).
  destruct (wWinMain_inv Inv (fun _ => True) s) with
    (script := script) (r := process_result s script)
    (w := process_world s script) (t := process_trace s script) as (_ & H).
  - intros w Hw. exact Hw.
  - intros; exact I.
  - intros e w o w' t Hw HR. split; [apply Forall_forall; intros; exact I|].
    intros ->. destruct (Render_trace e w _ _ _ HR) as (waited & _ & _ & Hret).
    unfold Inv. rewrite (ret_buffers _ _ _ _ _ (Hret eq_refl)). exact Hw.
  - intros w Hw. exact (new_buffers _ _ Hw).
  - intros; exact I.
  - apply process_eq.
  - exact H.
Qed.

(** C8, as stated, fails: after a resize to 1024 by 768 the two buffers
    still have the size they were created with, no rebuild having been
    called; and after a resize to 0 by 0 a draw request renders as usual. *)
Lemma C8_resize_rebuilds_nothing :
  process_result setup_ok [resize 1024 768] = Running /\
  buffers (dev (process_world setup_ok [resize 1024 768]))
    = repeat (816, 639)%Z (N.to_nat FrameCount) /\
  buffers (dev (process_world setup_ok [resize 1024 768]))
    <> repeat (1024, 768)%Z (N.to_nat FrameCount) /\
  calls (process_trace setup_ok [resize 1024 768])
    = ctor_calls setup_ok ++ [CDefWindowProcW WM_SIZE] /\
  calls (process_trace setup_ok [resize 0 0; paint (tick_ok 0 0 1)])
    = ctor_calls setup_ok ++ [CDefWindowProcW WM_SIZE] ++ frame_calls 0 0 false.
Proof.
  split; [reflexivity|]. split; [reflexivity|]. split; [|split; reflexivity].
  vm_compute. discriminate.
Qed.

(** C8, amended.  A size notification, whatever the width and height it
    carries (zero or not), is handed to the default window procedure: it
    rebuilds no buffer, raises no error and leaves the program's state as it
    was; the [FrameCount] buffers keep the dimensions of their creation for
    the whole run; and a draw request runs a [Render] tick whatever sizes
    were notified before. *)
Theorem C8_resize_is_ignored s script :
  (forall width height wp e dr w,
     WindowProc WM_SIZE wp (MAKELPARAM width height) e dr w
     = (Returned dr, w, [mkStep (CDefWindowProcW WM_SIZE) w w])) /\
  (forall wp lp e dr w,
     WindowProc WM_PAINT wp lp e dr w = bind (Render e) (fun _ => ret 0%Z) w) /\
  (process_result s script = Running \/ process_result s script = Exited 0 ->
   buffers (dev (process_world s script))
   = repeat (window_size s) (N.to_nat FrameCount)).
Proof.
  split; [|split].
  - intros. unfold WindowProc. cbn [Z.eqb WM_SIZE WM_CLOSE WM_CREATE WM_PAINT Pos.eqb].
    rewrite bind_call, with_dev_same. reflexivity.
  - intros. reflexivity.
  - apply buffers_never_rebuilt.
Qed.

Lemma C8_resize_is_ignored_witness :
  WindowProc WM_SIZE 0 (MAKELPARAM 0 600) (tick_ok 0 0 0) 0%Z
             (process_world setup_ok [])
  = (Returned 0%Z, process_world setup_ok [],
     [mkStep (CDefWindowProcW WM_SIZE) (process_world setup_ok [])
             (process_world setup_ok [])]) /\
  buffers (dev (process_world setup_ok [resize 0 600; resize 1024 768]))
  = repeat (window_size setup_ok) (N.to_nat FrameCount).
Proof.
  destruct (C8_resize_is_ignored setup_ok [resize 0 600; resize 1024 768])
    as (Hsize & _ & Hbuffers).
  split; [apply Hsize|]. apply Hbuffers. left. reflexivity.
Defined.

(** ** A remark on the first frame *)

(** The fence is created at 0 and the first frame signals 0, so the first
    tick never waits: its fence value counts as reached from the start.  When
    the second tick resets the allocator, the commands of the first frame can
    still be waiting in the GPU queue. *)
Example first_frame_not_waited_for :
  existsb (fun st =>
             match step_call st with
             | CAllocatorReset =>
                 all_reached (dev (step_before st)) &&
                 has_pending_execute (dev (step_before st))
             | _ => false
             end)
          (process_trace setup_ok sample_script) = true.
Proof. reflexivity. Qed.

(** * Further properties of the code *)

(** ** What a tick has done when it stops *)

Lemma sub_cmds_assign f subs :
  map sub_cmds (map (assign_fence f) subs) = map sub_cmds subs.
Proof.
  rewrite map_map. apply map_ext. intros s. unfold assign_fence.
  destruct (sub_fence s); reflexivity.
Qed.

Ltac first_failed n :=
  match goal with
  | |- exists pre hr post, ?L = _ /\ _ =>
      exists (firstn n L), (nth n L 0%Z), (skipn (S n) L);
      cbn [firstn skipn nth];
      split; [reflexivity|];
      split; [repeat (apply Forall_cons; [assumption|]); apply Forall_nil|];
      split; [assumption | reflexivity]
  end.

Ltac effect_thrown :=
  let ex := fresh "ex" in let Hx := fresh "Hx" in
  intros ex Hx; inversion Hx; subst; split; [reflexivity|];
  first [ first_failed 0%nat | first_failed 1%nat | first_failed 2%nat
        | first_failed 3%nat | first_failed 4%nat | first_failed 5%nat ].

Ltac effect_fields :=
  constructor;
  unfold signalled_ok; unfold recorded_ok; unfold tick_statuses;
  repeat match goal with F : FAILED _ = _ |- _ => rewrite F end;
  cbn [negb andb app dev m_fenceValue m_frameIndex submissions gpu_queue
       quit_posted buffers calls map step_call existsb is_submit is_wait orb];
  rewrite ?sub_cmds_assign, ?map_app, ?app_nil_r; cbn [map sub_cmds];
  try reflexivity; try (intros; discriminate);
  try (intros; split; reflexivity); try (intros; assumption);
  try effect_thrown; try (intros; eexists; reflexivity).

Lemma Render_effect e w o w' t :
  Render e w = (o, w', t) -> tick_effect e w o w' t.
Proof.
  intros H. unfold Render in H. rewrite bind_gpu_progress in H.
  destruct (gpu_run_cpu_side (gpu_before e) (dev w)) as (_ & _ & _ & Hs1 & Hb1).
  remember (gpu_run (gpu_before e) (dev w)) as d1 eqn:Hd1.
  destruct d1 as [o1 cs1 q1 c1 si1 subs1 b1].
  cbn [submissions buffers] in Hs1, Hb1. subst subs1 b1.
  assert (Hq : gpu_queue (gpu_run (gpu_before e) (dev w)) = q1)
    by (rewrite <- Hd1; reflexivity).
  clear Hd1.
  call_step H. check_step H F1.
  { inversion H; subst; clear H. effect_fields. }
  call_step H. check_step H F2.
  { inversion H; subst; clear H. effect_fields. }
  rewrite bind_get_frameIndex in H.
  do 4 call_step H. check_step H F3.
  { inversion H; subst; clear H. effect_fields. }
  do 2 call_step H. check_step H F4.
  { inversion H; subst; clear H. effect_fields. }
  rewrite bind_get_fenceValue in H.
  call_step H. check_step H F5.
  { inversion H; subst; clear H. effect_fields. }
  rewrite bind_set_fenceValue in H. simpl_world.
  rewrite bind_gpu_progress in H. simpl_world.
  match type of H with
  | context [gpu_run ?n ?D] =>
      destruct (gpu_run_cpu_side n D) as (_ & _ & _ & Hs3 & Hb3);
      remember (gpu_run n D) as d3 eqn:Hd3; clear Hd3
  end.
  destruct d3 as [o3 cs3 q3 c3 si3 subs3 b3].
  cbn [submissions buffers] in Hs3, Hb3. subst subs3 b3.
  rewrite bind_query in H. peel H. subst.
  cbn [completed] in H. rewrite bind_if in H.
  destruct (N.ltb_spec c3 (m_fenceValue (app w))) as [Hlt|Hge].
  - assert (Hpos : 0 < m_fenceValue (app w)) by lia.
    rewrite bind_assoc in H. call_step H.
    rewrite bind_assoc in H. check_step H F6.
    { inversion H; subst; clear H. effect_fields. }
    rewrite bind_Wait in H. simpl_world.
    match type of H with
    | context [gpu_wait ?f ?D] => destruct (gpu_wait f D) as [d4|] eqn:Hw
    end.
    2:{ inversion H; subst; clear H. effect_fields. }
    destruct (gpu_wait_cpu_side _ _ _ Hw) as (_ & _ & _ & Hs4 & Hb4).
    destruct d4 as [o4 cs4 q4 c4 si4 subs4 b4].
    cbn [submissions buffers] in Hs4, Hb4. subst subs4 b4.
    peel H. subst. rewrite bind_query in H. peel H. subst.
    unfold set_frameIndex in H. simpl_world.
    inversion H; subst; clear H. effect_fields.
  - rewrite bind_ret in H. rewrite bind_query in H. peel H. subst.
    unfold set_frameIndex in H. simpl_world.
    inversion H; subst; clear H. effect_fields.
Qed.

(** X1. A tick throws only for a failing status: the exception is the
    [HrException] of the first failing status in program order, with that
    status as its [Error] and spelled out in its message, and the stored
    buffer index is left as it was.  It does throw whenever one of the first
    five statuses (the two resets, close, present, signal) fails; a tick that
    returns has seen these five succeed. *)
Theorem Render_throws_first_failure e w o w' t :
  Render e w = (o, w', t) ->
  (forall ex, o = Threw ex ->
     m_frameIndex (app w') = m_frameIndex (app w) /\
     exists pre hr post,
       tick_statuses e = pre ++ hr :: post /\
       Forall (fun h => FAILED h = false) pre /\
       FAILED hr = true /\
       ex = HrException hr (HrToString hr) /\ Error ex = Some hr) /\
  (signalled_ok e = false -> exists ex, o = Threw ex) /\
  (o = Returned tt -> signalled_ok e = true).
Proof.
  intros H. destruct (Render_effect e w o w' t H)
    as [_ _ _ _ _ _ Hthrown Hret Hfails _ _ _].
  split; [|split; assumption].
  intros ex Hex. destruct (Hthrown ex Hex) as (Hi & pre & hr & post & H1 & H2 & H3 & H4).
  split; [exact Hi|]. exists pre, hr, post. subst ex. repeat split; assumption.
Qed.

Lemma Render_throws_first_failure_witness :
  let r := Render tick_present_fails (process_world setup_ok []) in
  (forall ex, fst (fst r) = Threw ex ->
     m_frameIndex (app (snd (fst r))) = m_frameIndex (app (process_world setup_ok [])) /\
     exists pre hr post,
       tick_statuses tick_present_fails = pre ++ hr :: post /\
       Forall (fun h => FAILED h = false) pre /\
       FAILED hr = true /\
       ex = HrException hr (HrToString hr) /\ Error ex = Some hr) /\
  (signalled_ok tick_present_fails = false -> exists ex, fst (fst r) = Threw ex) /\
  (fst (fst r) = Returned tt -> signalled_ok tick_present_fails = true).
Proof.
  cbv zeta.
  apply (Render_throws_first_failure tick_present_fails (process_world setup_ok [])
           (fst (fst (Render tick_present_fails (process_world setup_ok []))))
           (snd (fst (Render tick_present_fails (process_world setup_ok []))))
           (snd (Render tick_present_fails (process_world setup_ok [])))).
  vm_compute. reflexivity.
Defined.

(** X2. When the allocator reset, the list reset or the close fails, the
    tick throws without having submitted anything: no submit, present or
    signal call is made, the GPU queue holds what it held, no frame is added,
    and the members of [App] are unchanged. *)
Theorem Render_early_failure_submits_nothing e w o w' t :
  Render e w = (o, w', t) ->
  recorded_ok e = false ->
  (exists ex, o = Threw ex) /\
  existsb is_submit (calls t) = false /\
  app w' = app w /\
  submissions (dev w') = submissions (dev w) /\
  gpu_queue (dev w') = gpu_queue (gpu_run (gpu_before e) (dev w)).
Proof.
  intros H Hearly. destruct (Render_effect e w o w' t H)
    as [Hc _ _ Hnothing Hsubmit _ Hthrown _ Hfails _ _ _].
  assert (Hs : signalled_ok e = false) by (unfold signalled_ok; rewrite Hearly; reflexivity).
  destruct (Hfails Hs) as [ex Hex].
  split; [eauto|]. split; [rewrite Hsubmit; exact Hearly|].
  destruct (Hnothing Hearly) as [H1 H2]. split; [|split; assumption].
  rewrite Hs in Hc. destruct (Hthrown ex Hex) as [Hi _].
  destruct (app w') as [i' f'], (app w) as [i f]. cbn in Hc, Hi. congruence.
Qed.

Lemma Render_early_failure_submits_nothing_witness :
  let w := process_world setup_ok [paint (tick_ok 0 0 1)] in
  let r := Render tick_close_fails w in
  (exists ex, fst (fst r) = Threw ex) /\
  existsb is_submit (calls (snd r)) = false /\
  app (snd (fst r)) = app w /\
  submissions (dev (snd (fst r))) = submissions (dev w) /\
  gpu_queue (dev (snd (fst r))) = gpu_queue (gpu_run (gpu_before tick_close_fails) (dev w)).
Proof.
  cbv zeta.
  apply (Render_early_failure_submits_nothing tick_close_fails
           (process_world setup_ok [paint (tick_ok 0 0 1)])
           (fst (fst (Render tick_close_fails (process_world setup_ok [paint (tick_ok 0 0 1)]))))).
  - vm_compute. reflexivity.
  - reflexivity.
Defined.

(** X3. When present or signal fails, the frame has already been handed
    to the queue: it stays among the submitted frames without a fence value,
    and the fence counter is not advanced. *)
Theorem Render_late_failure_leaves_unsignalled_frame e w o w' t :
  Render e w = (o, w', t) ->
  recorded_ok e = true ->
  signalled_ok e = false ->
  (exists ex, o = Threw ex) /\
  existsb is_submit (calls t) = true /\
  m_fenceValue (app w') = m_fenceValue (app w) /\
  submissions (dev w') =
  submissions (dev w) ++ [mkSubmission (frame_cmds (m_frameIndex (app w))) None].
Proof.
  intros H Hrec Hsig. destruct (Render_effect e w o w' t H)
    as [Hc _ Huns _ Hsubmit _ _ _ Hfails _ _ _].
  split; [exact (Hfails Hsig)|]. split; [rewrite Hsubmit; exact Hrec|].
  split; [rewrite Hc, Hsig; reflexivity | exact (Huns Hrec Hsig)].
Qed.

Lemma Render_late_failure_leaves_unsignalled_frame_witness :
  let w := process_world setup_ok [] in
  let r := Render tick_present_fails w in
  (exists ex, fst (fst r) = Threw ex) /\
  existsb is_submit (calls (snd r)) = true /\
  m_fenceValue (app (snd (fst r))) = m_fenceValue (app w) /\
  submissions (dev (snd (fst r))) =
  submissions (dev w) ++ [mkSubmission (frame_cmds (m_frameIndex (app w))) None].
Proof.
  cbv zeta.
  apply (Render_late_failure_leaves_unsignalled_frame tick_present_fails
           (process_world setup_ok [])
           (fst (fst (Render tick_present_fails (process_world setup_ok []))))).
  - vm_compute. reflexivity.
  - reflexivity.
  - reflexivity.
Defined.

(** X4. A tick whose fence value is 0, as the first tick after
    construction, makes no [SetEventOnCompletion] and no wait and cannot
    sleep for good, whatever the GPU has done and whatever the device
    answers: an unsigned completed value is never below 0. *)
Theorem Render_fence_zero_never_waits e w o w' t :
  Render e w = (o, w', t) ->
  m_fenceValue (app w) = 0 ->
  existsb is_wait (calls t) = false /\ o <> Hung.
Proof.
  intros H Hzero. destruct (Render_effect e w o w' t H)
    as [_ _ _ _ _ Hwait _ _ _ Hhung _ _].
  assert (Hno : existsb is_wait (calls t) = false).
  { destruct (existsb is_wait (calls t)); [|reflexivity].
    specialize (Hwait eq_refl). lia. }
  split; [exact Hno|]. intros ->. rewrite (Hhung eq_refl) in Hno. discriminate Hno.
Qed.

Lemma Render_fence_zero_never_waits_witness :
  let r := Render (tick_ok 0 0 1) (process_world setup_ok []) in
  existsb is_wait (calls (snd r)) = false /\ fst (fst r) <> Hung.
Proof.
  cbv zeta.
  apply (Render_fence_zero_never_waits (tick_ok 0 0 1) (process_world setup_ok [])
           (fst (fst (Render (tick_ok 0 0 1) (process_world setup_ok []))))
           (snd (fst (Render (tick_ok 0 0 1) (process_world setup_ok []))))).
  - vm_compute. reflexivity.
  - reflexivity.
Defined.

(** ** The message loop, piece by piece *)

(** Running a script in two pieces: the second piece starts where the first
    one left the loop turning, and is not looked at otherwise. *)
Lemma message_loop_app : forall s1 s2 w,
  message_loop (s1 ++ s2) w =
  match message_loop s1 w with
  | (Returned false, w1, t1) =>
      match message_loop s2 w1 with
      | (o, w2, t2) => (o, w2, t1 ++ t2)
      end
  | r => r
  end.
Proof.
  induction s1 as [|d rest IH]; intros s2 w.
  - cbn [List.app message_loop ret]. destruct (message_loop s2 w) as [[o w2] t2].
    reflexivity.
  - cbn [List.app message_loop]. rewrite !bind_get_quit.
    destruct (if quit_posted w then Some (mkMSG WM_QUIT 0 0) else delivered d)
      as [m|]; [|apply IH].
    destruct (message m =? WM_QUIT)%Z; [reflexivity|].
    unfold bind. destruct (WindowProc _ _ _ _ _ w) as [[[r|ex| |] w1] t1];
      try reflexivity.
    rewrite IH. destruct (message_loop rest w1) as [[[[|]|ex| |] w2] t2];
      try reflexivity.
    destruct (message_loop s2 w2) as [[o3 w3] t3]. rewrite app_assoc. reflexivity.
Qed.

Lemma wWinMain_resumes s s1 s2 :
  process_result s s1 = Running ->
  wWinMain s (s1 ++ s2) = resume (process_world s s1) (process_trace s s1) s2.
Proof.
  unfold process_result, process_world, process_trace, wWinMain, resume.
  destruct (App_ctor s world0) as [[[[]|ex| |] w0] t0]; cbn [fst snd];
    try discriminate.
  rewrite message_loop_app.
  destruct (message_loop s1 w0) as [[[[|]|ex| |] w1] t1]; cbn [fst snd];
    try discriminate.
  intros _.
  destruct (message_loop s2 w1) as [[[[|]|ex| |] w2] t2];
    try (rewrite app_assoc; reflexivity).
  destruct (App_dtor w2) as [[o3 w3] t3].
  rewrite !app_assoc. reflexivity.
Qed.

Lemma message_loop_paint e rest w :
  quit_posted w = false ->
  message_loop (paint e :: rest) w =
  bind (Render e) (fun _ => message_loop rest) w.
Proof.
  intros Hq. cbn [message_loop]. rewrite bind_get_quit, Hq.
  cbn [paint delivered message wParam lParam answers def_result_of].
  change (WM_PAINT =? WM_QUIT)%Z with false. cbv iota.
  unfold WindowProc.
  change (WM_PAINT =? WM_CLOSE)%Z with false.
  change (WM_PAINT =? WM_CREATE)%Z with false.
  change (WM_PAINT =? WM_PAINT)%Z with true. cbv iota.
  rewrite !bind_assoc. unfold bind at 1. unfold bind at 2.
  destruct (Render e w) as [[[[]|ex| |] w1] t1]; try reflexivity.
  rewrite bind_ret. reflexivity.
Qed.

(** X6. A device failure during a tick is fatal: nothing catches the
    exception, so when the tick started by a draw request throws, the process
    is terminated by that exception in the state the tick left; its log ends
    with the calls of that tick and no later delivery is dispatched. *)
Theorem failing_tick_terminates_process s s1 e s2 ex w' t :
  process_result s s1 = Running ->
  quit_posted (process_world s s1) = false ->
  Render e (process_world s s1) = (Threw ex, w', t) ->
  wWinMain s (s1 ++ paint e :: s2) = (Terminated ex, w', process_trace s s1 ++ t).
Proof.
  intros Hrun Hq HR. rewrite (wWinMain_resumes s s1 _ Hrun). unfold resume.
  rewrite (message_loop_paint e s2 _ Hq). unfold bind. rewrite HR. reflexivity.
Qed.

Lemma failing_tick_terminates_process_witness :
  let s1 := [paint (tick_ok 0 0 1)] in
  let r := Render tick_present_fails (process_world setup_ok s1) in
  process_result setup_ok s1 = Running /\
  wWinMain setup_ok (s1 ++ paint tick_present_fails :: [close_request; idle])
  = (Terminated (mkHrException DXGI_ERROR_DEVICE_REMOVED), snd (fst r),
     process_trace setup_ok s1 ++ snd r).
Proof.
  cbv zeta. split; [vm_compute; reflexivity|].
  apply (failing_tick_terminates_process setup_ok [paint (tick_ok 0 0 1)]
           tick_present_fails [close_request; idle]).
  - vm_compute. reflexivity.
  - vm_compute. reflexivity.
  - vm_compute. reflexivity.
Defined.

(** X7. The process never sleeps for good in its fence wait: whatever the
    device answers and however slowly the GPU works, the value a tick waits
    for has been put on the queue before, so the wait comes back.  (The
    script is shorter than the range of the fence counter.) *)
Theorem process_never_blocks s script :
  N.of_nat (length script) < UINT64_MOD ->
  process_result s script <> Blocked.
Proof.
  intros Hlen.
  destruct (wWinMain_safe s script _ _ _ Hlen (process_eq s script)) as (_ & H & _).
  exact H.
Qed.

Lemma process_never_blocks_witness :
  N.of_nat (length sample_script) < UINT64_MOD /\
  process_result setup_ok sample_script <> Blocked.
Proof.
  split; [reflexivity|]. apply process_never_blocks. reflexivity.
Defined.

(** X8. A draw request whose device calls all succeed keeps the process in
    its loop: the tick neither throws nor blocks, whatever the GPU schedule,
    and the fence counter is one more afterwards.  Success codes other than
    [S_OK] count as success. *)
Theorem successful_tick_keeps_running s s1 e :
  N.of_nat (length s1) + 1 < UINT64_MOD ->
  process_result s s1 = Running ->
  quit_posted (process_world s s1) = false ->
  Forall (fun hr => FAILED hr = false) (tick_statuses e) ->
  process_result s (s1 ++ [paint e]) = Running /\
  m_fenceValue (app (process_world s (s1 ++ [paint e])))
  = m_fenceValue (app (process_world s s1)) + 1.
Proof.
  intros Hlen Hrun Hq Hok.
  destruct (wWinMain_safe s s1 _ _ _ ltac:(lia) (process_eq s s1)) as (_ & _ & Hidle).
  destruct (Hidle (or_introl Hrun)) as [Hi Hf].
  unfold process_result at 1, process_world at 1.
  rewrite (wWinMain_resumes s s1 _ Hrun). unfold resume.
  rewrite (message_loop_paint e [] _ Hq). unfold bind.
  destruct (Render e (process_world s s1)) as [[o w1] t1] eqn:HR.
  destruct (Render_idle e _ _ _ _ Hi HR) as (_ & Hhung & Hdone).
  destruct (Render_effect e _ _ _ _ HR) as [_ _ _ _ _ _ Hthrown _ _ _ _ _].
  destruct o as [[]|ex| |].
  - cbn [message_loop ret fst snd]. split; [reflexivity|].
    rewrite (done_counter _ _ (Hdone eq_refl)). unfold uint64_incr.
    apply N.mod_small. lia.
  - exfalso. destruct (Hthrown ex eq_refl) as (_ & pre & hr & post & Hsplit & _ & Hfail & _).
    rewrite Forall_forall in Hok.
    rewrite (Hok hr) in Hfail; [discriminate Hfail|].
    rewrite Hsplit. apply in_or_app. right. left. reflexivity.
  - contradiction.
  - destruct (Render_ends e _ _ _ _ HR) as [_ Hx]. contradiction.
Qed.

Lemma successful_tick_keeps_running_witness :
  let s1 := [paint (tick_ok 0 0 1)] in
  process_result setup_ok (s1 ++ [paint tick_occluded]) = Running /\
  m_fenceValue (app (process_world setup_ok (s1 ++ [paint tick_occluded])))
  = m_fenceValue (app (process_world setup_ok s1)) + 1.
Proof.
  cbv zeta.
  apply (successful_tick_keeps_running setup_ok [paint (tick_ok 0 0 1)] tick_occluded).
  - vm_compute. reflexivity.
  - vm_compute. reflexivity.
  - vm_compute. reflexivity.
  - repeat constructor.
Defined.

(** ** Which exceptions end the process *)

Lemma first_failure_hr_ops ops rest :
  first_failure (map hr_checked ops ++ rest) =
  match find (fun p => FAILED (snd p)) ops with
  | Some (c, hr) => Some (c, mkHrException hr)
  | None => first_failure rest
  end.
Proof.
  induction ops as [|[c hr] ops IH]; [reflexivity|].
  cbn [map List.app hr_checked fst snd first_failure find]. unfold hr_check.
  destruct (FAILED hr); [reflexivity | exact IH].
Qed.

Lemma setup_failure_kinds s c ex :
  first_failure (setup_checks s) = Some (c, ex) ->
  (ex = system_error (last_error s) /\ In c window_calls) \/
  (exists hr, In (c, hr) (hr_setup_ops s) /\ FAILED hr = true /\
              ex = mkHrException hr).
Proof.
  unfold setup_checks, ok_check, window_calls.
  destruct (ok_registerClass s);
    [|cbn; intros H; inversion H; left; split; [reflexivity | cbn; tauto]].
  destruct (ok_adjustRect s);
    [|cbn; intros H; inversion H; left; split; [reflexivity | cbn; tauto]].
  destruct (ok_createWindow s);
    [|cbn; intros H; inversion H; left; split; [reflexivity | cbn; tauto]].
  cbn [List.app first_failure]. rewrite first_failure_hr_ops.
  destruct (find (fun p => FAILED (snd p)) (hr_setup_ops s)) as [[c0 hr]|] eqn:Hfind.
  - intros H. inversion H; subst. right. exists hr.
    destruct (find_some _ _ Hfind) as [Hin Hf]. auto.
  - destruct (ok_createEvent s); cbn; intros H; inversion H.
    left. split; [reflexivity | cbn; tauto].
Qed.

Lemma WindowProc_thrown uMsg wp lp e dr w ex w' t :
  WindowProc uMsg wp lp e dr w = (Threw ex, w', t) ->
  exists hr, FAILED hr = true /\ ex = mkHrException hr.
Proof.
  unfold WindowProc.
  destruct (uMsg =? WM_CLOSE)%Z.
  { rewrite bind_post_quit. unfold ret, log. intros H; discriminate H. }
  destruct (uMsg =? WM_CREATE)%Z.
  { destruct (lp =? 0)%Z; [intros H; discriminate H|].
    rewrite bind_call. unfold ret, log. intros H; discriminate H. }
  destruct (uMsg =? WM_PAINT)%Z.
  { unfold bind. destruct (Render e w) as [[o1 w1] t1] eqn:HR.
    destruct (Render_effect e w o1 w1 t1 HR) as [_ _ _ _ _ _ Hthrown _ _ _ _ _].
    destruct o1 as [[]|ex1| |]; cbn; intros H; inversion H; subst.
    destruct (Hthrown ex eq_refl) as (_ & _ & hr & _ & _ & _ & Hf & Hex). eauto. }
  rewrite bind_call. unfold ret, log. intros H; discriminate H.
Qed.

Lemma message_loop_thrown : forall script w ex w' t,
  message_loop script w = (Threw ex, w', t) ->
  exists hr, FAILED hr = true /\ ex = mkHrException hr.
Proof.
  induction script as [|d rest IH]; intros w ex w' t H.
  - discriminate H.
  - cbn [message_loop] in H. rewrite bind_get_quit in H.
    destruct (if quit_posted w then Some (mkMSG WM_QUIT 0 0) else delivered d)
      as [m|]; [|eauto].
    destruct (message m =? WM_QUIT)%Z; [discriminate H|].
    unfold bind in H.
    destruct (WindowProc _ _ _ _ _ w) as [[[r|ex1| |] w1] t1] eqn:HW.
    + destruct (message_loop rest w1) as [[o2 w2] t2] eqn:HL.
      inversion H; subst. eauto.
    + inversion H; subst. exact (WindowProc_thrown _ _ _ _ _ _ _ _ _ HW).
    + discriminate H.
    + discriminate H.
Qed.

(** X9. An exception that ends the process is of one of two kinds: the
    [system_error] of a failing window or event call of the constructor,
    carrying [GetLastError()], in which case that call is the last one made;
    or an [HrException] carrying a failing [HRESULT] and its message.  No
    other exception leaves [wWinMain], and a tick never throws a
    [system_error]. *)
Theorem process_ends_by_known_exceptions s script ex :
  process_result s script = Terminated ex ->
  (ex = system_error (last_error s) /\
   In (last (calls (process_trace s script)) CShowWindow) window_calls) \/
  (exists hr, FAILED hr = true /\ ex = HrException hr (HrToString hr) /\
              Error ex = Some hr).
Proof.
  unfold process_result, process_trace, wWinMain.
  destruct (App_ctor s world0) as [[o0 w0] t0] eqn:HC.
  destruct (App_ctor_run s o0 w0 t0 HC) as (_ & _ & Hout).
  destruct (first_failure (setup_checks s)) as [[c ex0]|] eqn:Hfirst.
  - destruct Hout as [-> Hlast]. cbn [fst snd]. intros H. inversion H; subst.
    destruct (setup_failure_kinds s _ _ Hfirst) as [[-> Hin] | (hr & _ & Hf & ->)].
    + left. auto.
    + right. exists hr. auto.
  - destruct Hout as (-> & _ & _).
    destruct (message_loop script w0) as [[[[|]|ex1| |] w1] t1] eqn:HL; cbn [fst snd];
      try (destruct (App_dtor w1) as [[o2 w2] t2]; cbn [fst]);
      intros H; try discriminate H.
    inversion H; subst.
    destruct (message_loop_thrown _ _ _ _ _ HL) as (hr & Hf & ->).
    right. exists hr. auto.
Qed.

Lemma process_ends_by_known_exceptions_witness :
  (system_error 1410 = system_error (last_error setup_no_class) /\
   In (last (calls (process_trace setup_no_class sample_script)) CShowWindow)
      window_calls) \/
  (exists hr, FAILED hr = true /\ system_error 1410 = HrException hr (HrToString hr) /\
              Error (system_error 1410) = Some hr).
Proof.
  apply (process_ends_by_known_exceptions setup_no_class sample_script).
  vm_compute. reflexivity.
Defined.

(** ** When construction succeeds *)

Lemma find_none_forallb {A} (f : A -> bool) l :
  find f l = None <-> forallb (fun x => negb (f x)) l = true.
Proof.
  induction l as [|x l IH]; cbn; [tauto|].
  destruct (f x); cbn; [split; discriminate | exact IH].
Qed.

Lemma first_failure_none s :
  first_failure (setup_checks s) = None <-> setup_succeeds s = true.
Proof.
  unfold setup_checks, ok_check, setup_succeeds.
  destruct (ok_registerClass s); [|cbn; split; discriminate].
  destruct (ok_adjustRect s); [|cbn; split; discriminate].
  destruct (ok_createWindow s); [|cbn; split; discriminate].
  cbn [List.app first_failure andb]. rewrite first_failure_hr_ops.
  destruct (find (fun p => FAILED (snd p)) (hr_setup_ops s)) as [[c hr]|] eqn:Hfind.
  - split; [discriminate|]. intros H. apply andb_prop in H. destruct H as [H _].
    apply find_none_forallb in H. congruence.
  - apply find_none_forallb in Hfind. rewrite Hfind.
    destruct (ok_createEvent s); cbn; split; congruence.
Qed.

Lemma running_constructed s :
  process_result s [] = Running ->
  first_failure (setup_checks s) = None /\
  constructed s (process_world s []) /\
  calls (process_trace s []) = ctor_calls s.
Proof.
  unfold process_result, process_world, process_trace, wWinMain.
  destruct (App_ctor s world0) as [[o0 w0] t0] eqn:HC.
  destruct (App_ctor_run s o0 w0 t0 HC) as (_ & _ & Hout).
  destruct (first_failure (setup_checks s)) as [[c ex]|].
  - destruct Hout as [-> _]. cbn. discriminate.
  - destruct Hout as (-> & Hnew & Hcalls). cbn [message_loop ret fst snd].
    intros _. rewrite app_nil_r. auto.
Qed.

(** X10. The constructor goes through exactly when the three window
    calls, the twelve operations under [ThrowIfFailed] (a non-negative
    status each) and the event creation succeed.  It then has made all its
    calls in order, the counter is 0, the fence is at 0, nothing is queued,
    the list is closed and [FrameCount] buffers of the window's size exist.
    The status of the [Close] call of the constructor plays no part: it is
    not checked. *)
Theorem construction_succeeds_iff s :
  (process_result s [] = Running <-> setup_succeeds s = true) /\
  (process_result s [] = Running ->
   constructed s (process_world s []) /\
   calls (process_trace s []) = ctor_calls s) /\
  (forall hr script, wWinMain (with_firstClose hr s) script = wWinMain s script).
Proof.
  pose proof (running_constructed s) as Hrun.
  split; [|split].
  - split.
    + intros H. apply first_failure_none. apply (Hrun H).
    + intros H. apply first_failure_none in H.
      unfold process_result, wWinMain.
      destruct (App_ctor s world0) as [[o0 w0] t0] eqn:HC.
      destruct (App_ctor_run s o0 w0 t0 HC) as (_ & _ & Hout).
      rewrite H in Hout. destruct Hout as (-> & _). reflexivity.
  - intros H. apply (Hrun H).
  - intros hr script. destruct s. reflexivity.
Qed.

Lemma construction_succeeds_iff_witness :
  process_result setup_close_fails [] = Running /\
  constructed setup_close_fails (process_world setup_close_fails []) /\
  calls (process_trace setup_close_fails []) = ctor_calls setup_close_fails.
Proof.
  destruct (construction_succeeds_iff setup_close_fails) as ([_ Hiff] & Hrun & _).
  assert (H : process_result setup_close_fails [] = Running)
    by (apply Hiff; reflexivity).
  split; [exact H | exact (Hrun H)].
Defined.

(** ** What every tick keeps, whatever its outcome *)

Section KeptByEveryTick.

Variable Inv : Device -> Prop.

Hypothesis Render_keeps : forall e w o w' t,
  Inv (dev w) -> Render e w = (o, w', t) -> Inv (dev w').

Lemma WindowProc_keeps uMsg wp lp e dr w o w' t :
  Inv (dev w) -> WindowProc uMsg wp lp e dr w = (o, w', t) -> Inv (dev w').
Proof.
  intros HI. unfold WindowProc.
  destruct (uMsg =? WM_CLOSE)%Z.
  { rewrite bind_post_quit. unfold ret, log. intros H; inversion H; subst. exact HI. }
  destruct (uMsg =? WM_CREATE)%Z.
  { destruct (lp =? 0)%Z; [intros H; inversion H; subst; exact HI|].
    rewrite bind_call. unfold ret, log. intros H; inversion H; subst. exact HI. }
  destruct (uMsg =? WM_PAINT)%Z.
  { unfold bind. destruct (Render e w) as [[o1 w1] t1] eqn:HR.
    pose proof (Render_keeps _ _ _ _ _ HI HR) as H1.
    destruct o1 as [[]|ex| |]; cbn; intros H; inversion H; subst; exact H1. }
  rewrite bind_call. unfold ret, log. intros H; inversion H; subst. exact HI.
Qed.

Lemma message_loop_keeps : forall script w o w' t,
  Inv (dev w) -> message_loop script w = (o, w', t) -> Inv (dev w').
Proof.
  induction script as [|d rest IH]; intros w o w' t HI H.
  - inversion H; subst. exact HI.
  - cbn [message_loop] in H. rewrite bind_get_quit in H.
    destruct (if quit_posted w then Some (mkMSG WM_QUIT 0 0) else delivered d)
      as [m|]; [|eauto].
    destruct (message m =? WM_QUIT)%Z; [inversion H; subst; exact HI|].
    unfold bind in H.
    destruct (WindowProc _ _ _ _ _ w) as [[o1 w1] t1] eqn:HW.
    pose proof (WindowProc_keeps _ _ _ _ _ _ _ _ _ HI HW) as H1.
    destruct o1 as [r|ex| |].
    + destruct (message_loop rest w1) as [[o2 w2] t2] eqn:HL.
      inversion H; subst. eauto.
    + inversion H; subst. exact H1.
    + inversion H; subst. exact H1.
    + inversion H; subst. exact H1.
Qed.

Lemma process_keeps s script :
  process_result s [] = Running ->
  Inv (dev (process_world s [])) ->
  Inv (dev (process_world s script)).
Proof.
  intros Hrun HI. unfold process_world at 1.
  change script with ([] ++ script). rewrite (wWinMain_resumes s [] script Hrun).
  unfold resume.
  destruct (message_loop script (process_world s [])) as [[o w2] t2] eqn:HL.
  pose proof (message_loop_keeps _ _ _ _ _ HI HL) as H2.
  destruct o as [[|]|ex| |]; cbn [fst snd]; exact H2.
Qed.

End KeptByEveryTick.

(** ** Resource states of the buffers *)

Lemma exec_frames_app : forall fs1 fs2 st,
  exec_frames st (fs1 ++ fs2) =
  match exec_frames st fs1 with
  | Some st' => exec_frames st' fs2
  | None => None
  end.
Proof.
  induction fs1 as [|f fs1 IH]; intros fs2 st; [reflexivity|].
  cbn [List.app exec_frames]. destruct (exec_commands st f); [apply IH | reflexivity].
Qed.

Lemma exec_frame_cmds st i :
  (forall b, st b = D3D12_RESOURCE_STATE_PRESENT) ->
  exists st', exec_commands st (frame_cmds i) = Some st' /\
              forall b, st' b = D3D12_RESOURCE_STATE_PRESENT.
Proof.
  intros Hst. unfold frame_cmds. cbn [exec_commands exec_command].
  rewrite Hst. cbn [state_eqb]. rewrite N.eqb_refl. cbn [state_eqb].
  rewrite N.eqb_refl. cbn [state_eqb].
  eexists. split; [reflexivity|]. intros b. cbv beta.
  destruct (b =? i); [reflexivity | apply Hst].
Qed.

Lemma Render_keeps_frames_presentable e w o w' t :
  frames_presentable (dev w) -> Render e w = (o, w', t) ->
  frames_presentable (dev w').
Proof.
  intros (Hshape & st & Hexec & Hst) H.
  destruct (Render_effect e w o w' t H) as [_ Hframes _ _ _ _ _ _ _ _ _ _].
  unfold frames_presentable. rewrite Hframes.
  destruct (recorded_ok e).
  - split.
    + apply Forall_app. split; [assumption|]. repeat constructor. eauto.
    + rewrite exec_frames_app, Hexec. cbn [exec_frames].
      destruct (exec_frame_cmds st (m_frameIndex (app w)) Hst) as (st' & -> & Hst').
      eauto.
  - rewrite app_nil_r. split; [assumption|]. eauto.
Qed.

(** X11. Whatever happens after a successful construction (any
    deliveries, any statuses, any GPU schedule, any outcome), every frame
    handed to the queue consists of the transition of one buffer from present
    to render target, its clear, and the transition back; executed in order
    of submission these commands always find the buffer in the state they
    name, and every buffer is back in the present state after each frame. *)
Theorem frames_leave_buffers_presentable s script :
  process_result s [] = Running ->
  frames_presentable (dev (process_world s script)).
Proof.
  intros Hrun.
  apply (process_keeps frames_presentable Render_keeps_frames_presentable s script Hrun).
  destruct (running_constructed s Hrun) as (_ & Hc & _).
  unfold frames_presentable. rewrite (new_submissions _ _ Hc). cbn.
  split; [constructor|]. eauto.
Qed.

Lemma frames_leave_buffers_presentable_witness :
  process_result setup_ok [] = Running /\
  frames_presentable (dev (process_world setup_ok sample_script)).
Proof.
  split; [vm_compute; reflexivity|].
  apply frames_leave_buffers_presentable. vm_compute. reflexivity.
Defined.

(** ** The GPU is idle between frames *)

(** A tick whose fence value is not reached yet when it starts returns
    only after the GPU has emptied its queue: the value can only come from
    the signal the tick put at the end. *)
Lemma Render_drains_queue e w w' t :
  quiet (dev w) ->
  completed (dev w) < m_fenceValue (app w) ->
  Render e w = (Returned tt, w', t) ->
  gpu_queue (dev w') = [].
Proof.
  intros Hquiet Hbelow H.
  unfold Render in H. rewrite bind_gpu_progress in H.
  destruct (gpu_run_quiet (gpu_before e) (dev w) Hquiet) as [Hq1 Hc1].
  remember (gpu_run (gpu_before e) (dev w)) as d1 eqn:Hd1. clear Hd1.
  unfold quiet in Hq1.
  destruct d1 as [o1 cs1 q1 c1 si1 subs1 b1].
  cbn [completed gpu_queue] in *. subst c1.
  set (c0 := completed (dev w)) in *.
  call_step H. check_step H F1; [discriminate H|].
  call_step H. check_step H F2; [discriminate H|].
  rewrite bind_get_frameIndex in H.
  do 4 call_step H. check_step H F3; [discriminate H|].
  do 2 call_step H. check_step H F4; [discriminate H|].
  rewrite bind_get_fenceValue in H.
  call_step H. check_step H F5; [discriminate H|].
  rewrite bind_set_fenceValue in H. simpl_world.
  rewrite bind_gpu_progress in H. simpl_world.
  set (f := m_fenceValue (app w)) in *.
  match type of H with
  | context [gpu_run ?n ?D] =>
      assert (Hp : signal_pending c0 f (gpu_run n D));
      [ apply gpu_run_pending; right; eexists;
        split; [reflexivity|]; split; [|reflexivity];
        rewrite !forallb_app, Hq1; reflexivity
      | remember (gpu_run n D) as d3 eqn:Hd3; clear Hd3 ]
  end.
  rewrite bind_query in H. peel H. subst. rewrite bind_if in H.
  destruct (N.ltb_spec (completed d3) f) as [Hlt | Hge].
  - rewrite bind_assoc in H. call_step H.
    rewrite bind_assoc in H. check_step H F6; [discriminate H|].
    rewrite bind_Wait in H. simpl_world.
    destruct (gpu_wait_returns c0 f d3 Hp Hlt ltac:(lia)) as (d4 & Hw & Hq4 & _).
    rewrite Hw in H. peel H. subst. rewrite bind_query in H. peel H. subst.
    unfold set_frameIndex in H. simpl_world. inversion H; subst. exact Hq4.
  - rewrite bind_ret in H. rewrite bind_query in H. peel H. subst.
    unfold set_frameIndex in H. simpl_world. inversion H; subst.
    cbn [dev]. destruct Hp as [[Hq _] | (r & _ & _ & Hc)]; [exact Hq | lia].
Qed.

Lemma Render_in_step e w w' t :
  Idle w -> in_step w -> m_fenceValue (app w) + 1 < UINT64_MOD ->
  Render e w = (Returned tt, w', t) -> in_step w'.
Proof.
  intros Hidle [Hfence Hqueue] Hsmall HR.
  destruct (Render_idle e w _ _ _ Hidle HR) as (_ & _ & Hdone).
  destruct (Hdone eq_refl) as [Hc Hf _ _ _ _ _ _].
  unfold uint64_incr in Hc. rewrite N.mod_small in Hc by assumption.
  constructor.
  - rewrite Hc, Hf. lia.
  - intros Htwo. apply (Render_drains_queue e w w' t); [apply Hidle | lia | exact HR].
Qed.

Lemma message_loop_in_step : forall script w b w' t,
  Idle w -> in_step w ->
  m_fenceValue (app w) + N.of_nat (length script) < UINT64_MOD ->
  message_loop script w = (Returned b, w', t) -> in_step w'.
Proof.
  induction script as [|d rest IH]; intros w b w' t Hidle Hstep Hlen H.
  - inversion H; subst. exact Hstep.
  - cbn [message_loop] in H. rewrite bind_get_quit in H. cbn [length] in Hlen.
    destruct (if quit_posted w then Some (mkMSG WM_QUIT 0 0) else delivered d)
      as [m|]; [|apply (IH w b w' t); auto; lia].
    destruct (message m =? WM_QUIT)%Z; [inversion H; subst; exact Hstep|].
    unfold bind in H.
    destruct (WindowProc _ _ _ _ _ w) as [[o1 w1] t1] eqn:HW.
    destruct (WindowProc_idle _ _ _ _ _ _ _ _ _ Hidle HW) as (_ & _ & Hret).
    destruct o1 as [r|ex| |]; try discriminate H.
    destruct (message_loop rest w1) as [[o2 w2] t2] eqn:HL.
    inversion H; subst.
    pose proof (Hret r eq_refl) as Hhandled.
    destruct (handled_idle _ _ _ Hidle ltac:(lia) Hhandled) as [Hidle1 Hf1].
    apply (IH w1 b w' t2 Hidle1); [|lia|exact HL].
    destruct Hhandled as [[Hpaint Hdone] | (_ & Happ & Hdev)].
    + unfold WindowProc in HW.
      destruct (message m =? WM_CLOSE)%Z eqn:E1; [rewrite Hpaint in E1; discriminate E1|].
      destruct (message m =? WM_CREATE)%Z eqn:E2; [rewrite Hpaint in E2; discriminate E2|].
      rewrite Hpaint in HW. change (WM_PAINT =? WM_PAINT)%Z with true in HW.
      cbv iota in HW. unfold bind in HW.
      destruct (Render (answers d) w) as [[[[]|ex| |] w3] t3] eqn:HR;
        cbn in HW; inversion HW; subst.
      apply (Render_in_step (answers d) w w1 t3); auto. lia.
    + destruct Hstep as [H1 H2]. constructor; rewrite ?Happ, ?Hdev; assumption.
Qed.

(** X12. Between two messages the fence has reached the value signalled
    last (the counter minus one), and from the second frame on the GPU queue
    is empty: only the first frame can still be executing while the next one
    is recorded, every later frame is recorded with the GPU idle.  (The
    script is shorter than the range of the fence counter.) *)
Theorem gpu_idle_between_frames s script :
  N.of_nat (length script) < UINT64_MOD ->
  process_result s script = Running \/ process_result s script = Exited 0 ->
  completed (dev (process_world s script))
  = N.pred (m_fenceValue (app (process_world s script))) /\
  (2 <= m_fenceValue (app (process_world s script)) ->
   gpu_queue (dev (process_world s script)) = []).
Proof.
  intros Hlen Hres.
  cut (in_step (process_world s script)); [intros [H1 H2]; auto|].
  unfold process_result, process_world, wWinMain in *.
  destruct (App_ctor s world0) as [[o0 w0] t0] eqn:HC.
  destruct (App_ctor_run s o0 w0 t0 HC) as (_ & _ & Hout).
  destruct (first_failure (setup_checks s)) as [[c ex]|].
  { destruct Hout as [-> _]. cbn in Hres. destruct Hres as [Hx|Hx]; discriminate Hx. }
  destruct Hout as (-> & Hnew & _).
  assert (H0 : in_step w0).
  { constructor.
    - rewrite (new_fence _ _ Hnew), (new_counter _ _ Hnew). reflexivity.
    - intros _. exact (new_queue _ _ Hnew). }
  destruct (message_loop script w0) as [[o1 w1] t1] eqn:HL.
  assert (Hloop : forall b, o1 = Returned b -> in_step w1).
  { intros b ->. apply (message_loop_in_step script w0 b w1 t1); auto.
    - exact (new_idle _ _ Hnew).
    - rewrite (new_counter _ _ Hnew). lia. }
  destruct o1 as [[|]|ex| |]; cbn [fst snd] in *.
  - rewrite dtor_run. cbn [fst snd]. eauto.
  - eauto.
  - destruct Hres as [Hx|Hx]; discriminate Hx.
  - destruct Hres as [Hx|Hx]; discriminate Hx.
  - destruct Hres as [Hx|Hx]; discriminate Hx.
Qed.

Lemma gpu_idle_between_frames_witness :
  let script := [paint (tick_ok 0 0 1); paint (tick_ok 0 0 0)] in
  completed (dev (process_world setup_ok script))
  = N.pred (m_fenceValue (app (process_world setup_ok script))) /\
  (2 <= m_fenceValue (app (process_world setup_ok script)) ->
   gpu_queue (dev (process_world setup_ok script)) = []).
Proof.
  cbv zeta. apply gpu_idle_between_frames.
  - vm_compute. reflexivity.
  - left. vm_compute. reflexivity.
Defined.

(** ** The text of a status code *)

(** X13. The message of a status code is 21 characters long, and the code
    can be read back from it: two status codes with the same message are the
    same code. *)
Theorem HrToString_tells_codes_apart hr1 hr2 :
  is_HRESULT hr1 -> is_HRESULT hr2 ->
  String.length (HrToString hr1) = 21%nat /\
  code_in_message (HrToString hr1) = hr1 /\
  (HrToString hr1 = HrToString hr2 -> hr1 = hr2).
Proof.
  intros H1 H2. split; [reflexivity|].
  split; [apply code_in_message_HrToString; exact H1|].
  intros Heq. rewrite <- (code_in_message_HrToString hr1 H1).
  rewrite <- (code_in_message_HrToString hr2 H2). rewrite Heq. reflexivity.
Qed.

Lemma HrToString_tells_codes_apart_witness :
  String.length (HrToString E_FAIL) = 21%nat /\
  code_in_message (HrToString E_FAIL) = E_FAIL /\
  (HrToString E_FAIL = HrToString DXGI_ERROR_DEVICE_REMOVED ->
   E_FAIL = DXGI_ERROR_DEVICE_REMOVED).
Proof.
  apply HrToString_tells_codes_apart; unfold is_HRESULT, E_FAIL, DXGI_ERROR_DEVICE_REMOVED; lia.
Defined.

(** ** Messages other than draw requests *)

Lemma message_loop_without_paint : forall script w,
  Forall not_paint script ->
  exists o w' t,
    message_loop script w = (o, w', t) /\
    app w' = app w /\ dev w' = dev w /\
    Forall (fun st => outside_render (step_call st) = true) t /\
    ((exists b, o = Returned b) \/
     (o = Faulted /\ Exists delivers_create script)).
Proof.
  induction script as [|d rest IH]; intros w Hall.
  - exists (Returned false), w, []. repeat split; [constructor | eauto].
  - inversion Hall as [|x l Hd Hrest]; subst.
    cbn [message_loop]. rewrite bind_get_quit.
    destruct (quit_posted w) eqn:Hq.
    + cbn. exists (Returned true), w, []. repeat split; [constructor | eauto].
    + destruct (delivered d) as [m|] eqn:Hm.
      2:{ destruct (IH w Hrest) as (o & w2 & t2 & HL & Ha & Hdv & Ht & Hend).
          exists o, w2, t2. repeat split; auto.
          destruct Hend as [Hret | [Hf Hex]]; [left; exact Hret|].
          right. split; [exact Hf | apply Exists_cons_tl; exact Hex]. }
      destruct (Z.eqb_spec (message m) WM_QUIT) as [Hquit|_].
      { exists (Returned true), w, []. repeat split; [constructor | eauto]. }
      destruct (WindowProc_other (message m) (wParam m) (lParam m)
                  (answers d) (def_result_of d) w (Hd m Hm))
        as [[Hcreate HW] | (r & c & w1 & HW & Hc & Happ & Hdev)].
      * unfold bind. rewrite HW. exists Faulted, w, [].
        repeat split; [constructor|]. right. split; [reflexivity|].
        apply Exists_cons_hd. exists m. auto.
      * destruct (IH w1 Hrest) as (o & w2 & t2 & HL & Happ2 & Hdev2 & Ht2 & Hend).
        unfold bind. rewrite HW, HL. exists o, w2, ([mkStep c w w1] ++ t2).
        split; [reflexivity|]. split; [congruence|]. split; [congruence|].
        split.
        { apply Forall_app. split; [|exact Ht2]. repeat constructor. exact Hc. }
        destruct Hend as [Hret | [Hf Hex]]; [left; exact Hret|].
        right. split; [exact Hf | apply Exists_cons_tl; exact Hex].
Qed.

(** X14. Without draw requests nothing is rendered: after a successful
    construction, deliveries that are not [WM_PAINT] leave the device and the
    members of [App] exactly as the constructor left them and add only
    message-handling and release calls to the log.  No exception is thrown
    and no wait is made: the process is still in its loop or has returned 0,
    unless a [WM_CREATE] was among the deliveries, whose read through
    [lParam] can end the process. *)
Theorem only_paint_touches_the_device s script :
  process_result s [] = Running ->
  Forall not_paint script ->
  dev (process_world s script) = dev (process_world s []) /\
  app (process_world s script) = app (process_world s []) /\
  (process_result s script = Running \/ process_result s script = Exited 0 \/
   (process_result s script = Crashed /\ Exists delivers_create script)) /\
  exists t, process_trace s script = process_trace s [] ++ t /\
            Forall (fun st => outside_render (step_call st) = true) t.
Proof.
  intros Hrun Hall.
  unfold process_world at 1 3, process_result at 1 2 3, process_trace at 1.
  change script with ([] ++ script).
  rewrite (wWinMain_resumes s [] script Hrun).
  unfold resume.
  destruct (message_loop_without_paint script (process_world s []) Hall)
    as (o & w2 & t2 & HL & Happ & Hdev & Ht2 & Hend).
  rewrite HL. destruct Hend as [[b ->] | [-> Hex]].
  - destruct b.
    + rewrite dtor_run. cbn [fst snd]. repeat split; auto.
      eexists. split; [reflexivity|]. apply Forall_app. split; [exact Ht2|].
      unfold release_order. cbn [map]. repeat constructor.
    + cbn [fst snd]. repeat split; auto. eauto.
  - cbn [fst snd]. repeat split; auto. eauto.
Qed.

Lemma only_paint_touches_the_device_witness :
  let script := [resize 1024 768; idle; close_request; idle] in
  dev (process_world setup_ok script) = dev (process_world setup_ok []) /\
  app (process_world setup_ok script) = app (process_world setup_ok []) /\
  (process_result setup_ok script = Running \/
   process_result setup_ok script = Exited 0 \/
   (process_result setup_ok script = Crashed /\ Exists delivers_create script)) /\
  exists t, process_trace setup_ok script = process_trace setup_ok [] ++ t /\
            Forall (fun st => outside_render (step_call st) = true) t.
Proof.
  cbv zeta. apply only_paint_touches_the_device.
  - vm_compute. reflexivity.
  - repeat constructor; intros m Hm; inversion Hm; subst; vm_compute; discriminate.
Defined.

(** The [WM_CREATE] case does end the process when its [lParam] is null:
    nothing is called, and the draw request behind it is never handled. *)
Example create_without_struct_crashes :
  process_result setup_ok [create_null; paint (tick_ok 0 0 1)] = Crashed /\
  process_trace setup_ok [create_null; paint (tick_ok 0 0 1)]
  = process_trace setup_ok [].
Proof. split; vm_compute; reflexivity. Qed.

(** ** The buffer index stays within the ring *)

Lemma frame_calls_in_ring i f waited :
  i < FrameCount -> Forall index_in_ring (frame_calls i f waited).
Proof.
  intros Hi. unfold frame_calls.
  destruct waited; repeat (apply Forall_cons; [cbn; auto|]); apply Forall_nil.
Qed.

Lemma Render_in_ring e w o w' t :
  m_frameIndex (app w) < FrameCount ->
  next_index e < FrameCount ->
  Render e w = (o, w', t) ->
  Forall index_in_ring (calls t) /\
  (o = Returned tt -> m_frameIndex (app w') < FrameCount).
Proof.
  intros Hi Hnext H.
  destruct (Render_trace e w o w' t H) as (waited & (rest & Hpre) & _ & Hret).
  split.
  - pose proof (frame_calls_in_ring _ (m_fenceValue (app w)) waited Hi) as Hall.
    rewrite Hpre in Hall. apply Forall_app in Hall. tauto.
  - intros Ho. destruct (Hret Ho) as [_ _ Hidx Hsurf _ _ _ _].
    rewrite Hidx, Hsurf. exact Hnext.
Qed.

Lemma message_loop_in_ring : forall script w o w' t,
  Forall (fun d => next_index (answers d) < FrameCount) script ->
  m_frameIndex (app w) < FrameCount ->
  message_loop script w = (o, w', t) ->
  Forall index_in_ring (calls t).
Proof.
  induction script as [|d rest IH]; intros w o w' t Hall Hi H.
  - inversion H; subst. constructor.
  - inversion Hall as [|x l Hd Hrest]; subst.
    cbn [message_loop] in H. rewrite bind_get_quit in H.
    destruct (if quit_posted w then Some (mkMSG WM_QUIT 0 0) else delivered d)
      as [m|]; [|eauto].
    destruct (message m =? WM_QUIT)%Z; [inversion H; subst; constructor|].
    unfold bind in H.
    destruct (WindowProc _ _ _ _ _ w) as [[o1 w1] t1] eqn:HW.
    assert (H1 : Forall index_in_ring (calls t1) /\
                 (forall r, o1 = Returned r -> m_frameIndex (app w1) < FrameCount)).
    { destruct (Z.eqb_spec (message m) WM_PAINT) as [Hpaint|Hother].
      - unfold WindowProc in HW. rewrite Hpaint in HW.
        change (WM_PAINT =? WM_CLOSE)%Z with false in HW.
        change (WM_PAINT =? WM_CREATE)%Z with false in HW.
        change (WM_PAINT =? WM_PAINT)%Z with true in HW. cbv iota in HW.
        unfold bind in HW.
        destruct (Render (answers d) w) as [[o3 w3] t3] eqn:HR.
        destruct (Render_in_ring _ _ _ _ _ Hi Hd HR) as [Hc Hn].
        destruct o3 as [[]|ex| |]; cbn in HW; inversion HW; subst;
          rewrite ?app_nil_r; split; auto; intros r Hx; discriminate Hx.
      - destruct (WindowProc_other (message m) (wParam m) (lParam m)
                    (answers d) (def_result_of d) w Hother)
          as [[_ HW2] | (r & c & w2 & HW2 & Hc & Happ & _)].
        + rewrite HW2 in HW. inversion HW; subst.
          split; [constructor | intros r Hx; discriminate Hx].
        + rewrite HW2 in HW. inversion HW; subst. split.
          * repeat constructor. destruct c; try discriminate Hc; exact I.
          * intros _ _. rewrite Happ. exact Hi. }
    destruct H1 as [Hc1 Hn1].
    destruct o1 as [r|ex| |].
    + destruct (message_loop rest w1) as [[o2 w2] t2] eqn:HL.
      inversion H; subst. unfold calls. rewrite map_app. apply Forall_app.
      split; [exact Hc1|]. apply (IH w1 o w' t2 Hrest (Hn1 r eq_refl) HL).
    + inversion H; subst. exact Hc1.
    + inversion H; subst. exact Hc1.
    + inversion H; subst. exact Hc1.
Qed.

(** X16. [m_renderTargets] is indexed by what the surface reports,
    unchecked.  As long as the surface only reports indices below
    [FrameCount], at construction and after each present, every barrier and
    every clear the process records addresses a buffer of the ring. *)
Theorem buffer_index_stays_in_ring s script :
  first_index s < FrameCount ->
  Forall (fun d => next_index (answers d) < FrameCount) script ->
  Forall index_in_ring (calls (process_trace s script)).
Proof.
  intros Hfirst Hall. unfold process_trace, wWinMain.
  destruct (App_ctor s world0) as [[o0 w0] t0] eqn:HC.
  destruct (App_ctor_run s o0 w0 t0 HC) as ((rest & Hpre) & _ & Hout).
  assert (H0 : Forall index_in_ring (calls t0)).
  { assert (Hall0 : Forall index_in_ring (ctor_calls s))
      by (unfold ctor_calls; repeat constructor).
    rewrite Hpre in Hall0. apply Forall_app in Hall0. tauto. }
  destruct (first_failure (setup_checks s)) as [[c ex]|].
  - destruct Hout as [-> _]. exact H0.
  - destruct Hout as (-> & Hnew & _).
    destruct (message_loop script w0) as [[o1 w1] t1] eqn:HL.
    assert (H1 : Forall index_in_ring (calls t1)).
    { apply (message_loop_in_ring script w0 o1 w1 t1 Hall); [|exact HL].
      rewrite (new_index _ _ Hnew). exact Hfirst. }
    assert (H2 : Forall index_in_ring (calls (t0 ++ t1)))
      by (unfold calls in *; rewrite map_app; apply Forall_app; auto).
    destruct o1 as [[|]|ex| |]; cbn [snd]; try exact H2.
    rewrite dtor_run. cbn [snd]. unfold calls in *.
    rewrite app_assoc, map_app, map_map. cbn [step_call]. rewrite map_id.
    apply Forall_app. split; [exact H2|]. unfold release_order. repeat constructor.
Qed.

Lemma buffer_index_stays_in_ring_witness :
  first_index setup_ok < FrameCount /\
  Forall index_in_ring (calls (process_trace setup_ok sample_script)).
Proof.
  split; [reflexivity|]. apply buffer_index_stays_in_ring.
  - reflexivity.
  - repeat constructor.
Defined.
